(** * Verification of [src/src/utils/downloader.py] (class [Downloader])

    A shallow embedding of the asynchronous multi-range downloader:
    - Python exceptions become the [Err] branch of [result];
    - the mutable state the methods touch (the [Downloader] object, the
      destination file, the session pool, the request log, the progress bar)
      is an explicit [world] threaded through a state-and-error monad [M];
    - the coroutines that [asyncio.gather] runs concurrently are resumable
      processes [proc] cut at their [await] points, interleaved by an explicit
      schedule. *)

From Stdlib Require Import ZArith Lia Ascii String.
From stdpp Require Import base gmap strings list.

Open Scope Z_scope.

(* ------------------------------------------------------------------ *)
(** ** Python values and exceptions *)

Inductive exn :=
| ZeroDivisionError
| ValueError
| TypeError
| KeyError
| OSError
| RuntimeError
| ClientError.

Inductive result (A : Type) :=
| Ok (a : A)
| Err (e : exn).
Arguments Ok {A} a.
Arguments Err {A} e.

(** A Python value as it appears in a byte-range tuple: [fetch] receives
    [(start, end)] with integers from [download], or its default [(0, "")]. *)
Inductive pyval :=
| PInt (z : Z)
| PStr (s : string).

Definition digit_char (d : Z) : ascii := ascii_of_nat (48 + Z.to_nat d).

Fixpoint digits_aux (fuel : nat) (n : Z) (acc : string) : string :=
  match fuel with
  | O => acc
  | S f =>
      let acc' := String (digit_char (n mod 10)) acc in
      if n <? 10 then acc' else digits_aux f (n / 10) acc'
  end.

(** [str(n)] for a Python int: decimal digits, with a leading ["-"] when
    negative. *)
Definition py_str_int (n : Z) : string :=
  if n <? 0
  then String "-" (digits_aux (S (Z.to_nat (Z.log2 (- n)))) (- n) EmptyString)
  else digits_aux (S (Z.to_nat (Z.log2 n))) n EmptyString.

(** The replacement field of an f-string: [f"{v}"]. *)
Definition py_format (v : pyval) : string :=
  match v with
  | PInt z => py_str_int z
  | PStr s => s
  end.

(* ------------------------------------------------------------------ *)
(** ** Range planning (lines 189-195 of [download]) *)

(** [int(length / self.threads)]. Python's true division of two ints is a
    correctly rounded binary64 quotient, and [int] truncates it toward zero.
    For [|length| < 2^53] the rounding error is below [1/threads], so the
    result is the truncated integer quotient [Z.quot]; larger lengths never
    reach this line, because the pre-sizing step before it materialises
    [b"\0" * length], a buffer of at least 8 PiB. A zero divisor raises
    [ZeroDivisionError]. *)
Definition py_int_true_div (length threads : Z) : result Z :=
  if threads =? 0 then Err ZeroDivisionError else Ok (Z.quot length threads).

(** The loop
<<
    for _ in range(self.threads - 1):
        ranges.append((start + 1, start + base))
        start += base
>>
    run [k] times from the current [start] and [ranges]. *)
Fixpoint plan_loop (k : nat) (base start : Z) (ranges : list (Z * Z))
  : Z * list (Z * Z) :=
  match k with
  | O => (start, ranges)
  | S k' => plan_loop k' base (start + base) (ranges ++ [(start + 1, start + base)])
  end.

(** Lines 189-195: [start = -1], the base width, the loop, and the final
    range [(start + 1, length)]. [range(n)] is empty for [n <= 0]. *)
Definition plan_ranges (length threads : Z) : result (list (Z * Z)) :=
  match py_int_true_div length threads with
  | Err e => Err e
  | Ok base =>
      let '(start, ranges) := plan_loop (Z.to_nat (threads - 1)) base (-1) [] in
      Ok (ranges ++ [(start + 1, length)])
  end.





(* ------------------------------------------------------------------ *)
(** ** [int(s)] on a header value *)

Definition is_py_space (c : ascii) : bool :=
  match nat_of_ascii c with
  | 32%nat | 9%nat | 10%nat | 11%nat | 12%nat | 13%nat => true
  | _ => false
  end.

Fixpoint drop_spaces (cs : list ascii) : list ascii :=
  match cs with
  | c :: cs' => if is_py_space c then drop_spaces cs' else cs
  | [] => []
  end.

Definition digit_value (c : ascii) : option Z :=
  let n := nat_of_ascii c in
  if (48 <=? n)%nat && (n <=? 57)%nat then Some (Z.of_nat n - 48) else None.

(** Digits with single underscores between them; [prev_us] records that the
    previous character was an underscore (or that nothing was read yet). *)
Fixpoint parse_digits (cs : list ascii) (acc : Z) (prev_us : bool) : option Z :=
  match cs with
  | [] => if prev_us then None else Some acc
  | c :: cs' =>
      match digit_value c with
      | Some d => parse_digits cs' (acc * 10 + d) false
      | None =>
          if Ascii.eqb c "_" && negb prev_us then parse_digits cs' acc true else None
      end
  end.

(** [int(s)] for an ASCII string: surrounding whitespace, an optional sign,
    decimal digits with single underscores between them; anything else
    raises [ValueError]. *)
Definition py_int_of_string (s : string) : result Z :=
  let cs := rev (drop_spaces (rev (drop_spaces (list_ascii_of_string s)))) in
  let parsed :=
    match cs with
    | "-"%char :: cs' => option_map Z.opp (parse_digits cs' 0 true)
    | "+"%char :: cs' => parse_digits cs' 0 true
    | _ => parse_digits cs 0 true
    end in
  match parsed with
  | Some z => Ok z
  | None => Err ValueError
  end.


(* ------------------------------------------------------------------ *)
(** ** The [Downloader] object, requests and the world *)

(** A value of the [aiohttp_args] keyword dictionary. *)
Inductive arg :=
| AStr (s : string)
| AInt (z : Z)
| AHeaders (h : gmap string string).

(** The attributes set by [__init__]; sessions are named by an id. *)
Record Downloader := mkDownloader {
  url : string;
  file : string;
  threads : Z;
  session : nat;
  new_session : bool;
  progress_bar : bool;
  aiohttp_args : gmap string arg
}.

Record request := mkRequest {
  req_method : string;
  req_url : string;
  req_headers : gmap string string
}.

Record response := mkResponse {
  resp_headers : gmap string string;
  resp_chunks : list (list Byte.byte)   (** what [content.iter_any()] yields *)
}.

Record world := mkWorld {
  w_self : Downloader;          (** the [Downloader] instance *)
  w_parent_exists : bool;       (** the destination's parent directory exists *)
  w_disk : list Byte.byte;           (** contents of the destination file *)
  w_closed : list nat;          (** [session.close()] calls, in order *)
  w_next_session : nat;         (** id of the next [ClientSession()] *)
  w_requests : list request;    (** requests sent, in order *)
  w_progress : Z                (** sum of the [progress.update] arguments *)
}.

Definition set_self (d : Downloader) (w : world) : world :=
  mkWorld d (w_parent_exists w) (w_disk w) (w_closed w) (w_next_session w)
    (w_requests w) (w_progress w).
Definition set_disk (b : list Byte.byte) (w : world) : world :=
  mkWorld (w_self w) (w_parent_exists w) b (w_closed w) (w_next_session w)
    (w_requests w) (w_progress w).
Definition set_closed (c : list nat) (w : world) : world :=
  mkWorld (w_self w) (w_parent_exists w) (w_disk w) c (w_next_session w)
    (w_requests w) (w_progress w).
Definition set_requests (r : list request) (w : world) : world :=
  mkWorld (w_self w) (w_parent_exists w) (w_disk w) (w_closed w) (w_next_session w)
    r (w_progress w).
Definition set_progress (p : Z) (w : world) : world :=
  mkWorld (w_self w) (w_parent_exists w) (w_disk w) (w_closed w) (w_next_session w)
    (w_requests w) p.

Definition set_args (a : gmap string arg) (d : Downloader) : Downloader :=
  mkDownloader (url d) (file d) (threads d) (session d) (new_session d)
    (progress_bar d) a.

(* ------------------------------------------------------------------ *)
(** ** State-and-error monad *)

(** A Python statement sequence: effects before an exception persist. *)
Definition M (A : Type) : Type := world -> result A * world.

Definition ret {A} (a : A) : M A := fun w => (Ok a, w).
Definition bind {A B} (m : M A) (k : A -> M B) : M B :=
  fun w => match m w with
           | (Ok a, w') => k a w'
           | (Err e, w') => (Err e, w')
           end.
Definition raise {A} (e : exn) : M A := fun w => (Err e, w).
Definition gets {A} (f : world -> A) : M A := fun w => (Ok (f w), w).
Definition modify (f : world -> world) : M unit := fun w => (Ok tt, f w).
Definition lift {A} (r : result A) : M A := fun w => (r, w).

Notation "x <-- m ;; k" := (bind m (fun x => k))
  (at level 100, m at next level, right associativity).
Notation "m ;;; k" := (bind m (fun _ => k))
  (at level 100, right associativity).

Definition set_parent_exists (b : bool) (w : world) : world :=
  mkWorld (w_self w) b (w_disk w) (w_closed w) (w_next_session w)
    (w_requests w) (w_progress w).
Definition set_next_session (n : nat) (w : world) : world :=
  mkWorld (w_self w) (w_parent_exists w) (w_disk w) (w_closed w) n
    (w_requests w) (w_progress w).

(* ------------------------------------------------------------------ *)
(** ** Coroutines cut at their [await] points *)

(** A coroutine that has not finished: [PStep eff next] runs up to its next
    [await]; from the world [w] it leaves [eff w] and continues as [next w]. *)
Inductive proc :=
| PDone
| PFail (e : exn)
| PStep (eff : world -> world) (next : world -> proc).

(** Run [m] as one uninterrupted step, then continue with [k]. *)
Definition step {A} (m : M A) (k : A -> proc) : proc :=
  PStep (fun w => snd (m w))
        (fun w => match fst (m w) with Ok a => k a | Err e => PFail e end).

(** Running a coroutine to completion when nothing else is scheduled. *)
Fixpoint run_proc (p : proc) : M unit :=
  match p with
  | PDone => ret tt
  | PFail e => raise e
  | PStep eff next => fun w => run_proc (next w) (eff w)
  end.

(** [asyncio.gather] over the tasks: the schedule [sched] says which task resumes at
    each turn (a task that has finished is skipped); once the schedule is
    used up the remaining tasks run to completion in list order. The first
    task to raise makes [gather] raise its exception. *)
Fixpoint run_sched (sched : list nat) (ts : list proc) (w : world)
  : result (list proc) * world :=
  match sched with
  | [] => (Ok ts, w)
  | i :: sched' =>
      match ts !! i with
      | Some (PStep eff next) =>
          match next w with
          | PFail e => (Err e, eff w)
          | t' => run_sched sched' (<[i := t']> ts) (eff w)
          end
      | _ => run_sched sched' ts w
      end
  end.

Fixpoint run_all (ts : list proc) : M unit :=
  match ts with
  | [] => ret tt
  | t :: ts' => run_proc t ;;; run_all ts'
  end.

Definition gather (sched : list nat) (ts : list proc) : M unit :=
  fun w => match run_sched sched ts w with
           | (Ok ts', w') => run_all ts' w'
           | (Err e, w') => (Err e, w')
           end.

Section Program.

(** The HTTP server: the response (or transport error) to each request. *)
Variable serve : request -> result response.

(* ------------------------------------------------------------------ *)
(** ** File and session primitives *)

(** [aiofiles.open(self.file, "wb")]: truncates the file to zero bytes; a
    missing parent directory raises [FileNotFoundError]. *)
Definition open_wb : M unit :=
  fun w => if w_parent_exists w then (Ok tt, set_disk [] w) else (Err OSError, w).

(** Writing [chunk] at position [pos]: a gap past the end reads as zeros;
    writing no bytes leaves the file as it is. *)
Definition write_at (pos : Z) (chunk disk : list Byte.byte) : list Byte.byte :=
  match chunk with
  | [] => disk
  | _ =>
      let p := Z.to_nat pos in
      take p disk ++ replicate (p - length disk) Byte.x00 ++ chunk
        ++ drop (p + length chunk) disk
  end.

Definition file_write (pos : Z) (chunk : list Byte.byte) : M unit :=
  modify (fun w => set_disk (write_at pos chunk (w_disk w)) w).

Definition method_of (args : gmap string arg) : result string :=
  match args !! "method" with
  | Some (AStr m) => Ok m
  | _ => Err TypeError
  end.

Definition headers_of (args : gmap string arg) : result (gmap string string) :=
  match args !! "headers" with
  | None => Ok ∅
  | Some (AHeaders h) => Ok h
  | Some _ => Err TypeError
  end.

(** [self.session.request(url=self.url, **args)]: a closed session raises
    [RuntimeError]; otherwise the request is sent with the headers the
    mapping holds at this moment. *)
Definition session_request (args : gmap string arg) : M response :=
  self <-- gets w_self ;;
  closed <-- gets w_closed ;;
  if bool_decide (session self ∈ closed) then raise RuntimeError else
  m <-- lift (method_of args) ;;
  h <-- lift (headers_of args) ;;
  let req := mkRequest m (url self) h in
  modify (fun w => set_requests (w_requests w ++ [req]) w) ;;;
  lift (serve req).

(** [await self.session.close()]. *)
Definition close (sid : nat) : M unit :=
  modify (fun w => set_closed (w_closed w ++ [sid]) w).

(* ------------------------------------------------------------------ *)
(** ** [fetch] (lines 115-141) *)

(** [f"bytes={filerange[0]}-{filerange[1]}"]. *)
Definition range_header (filerange : pyval * pyval) : string :=
  String.append "bytes="
    (String.append (py_format filerange.1)
       (String.append "-" (py_format filerange.2))).

(** Lines 128-132: add an empty ["headers"] mapping when there is none, then
    set its ["Range"] entry, in place in [self.aiohttp_args]. *)
Definition set_range (filerange : pyval * pyval) : M unit :=
  self <-- gets w_self ;;
  let args := aiohttp_args self in
  let args1 :=
    if bool_decide (is_Some (args !! "headers")) then args
    else <["headers" := AHeaders ∅]> args in
  match args1 !! "headers" with
  | Some (AHeaders h) =>
      modify (fun w => set_self (set_args
        (<["headers" := AHeaders (<["Range" := range_header filerange]> h)]> args1)
        (w_self w)) w)
  | _ =>
      modify (fun w => set_self (set_args args1 (w_self w)) w) ;;;
      raise TypeError
  end.

(** [await fileobj.seek(offset)]: a negative position raises [ValueError],
    a non-integer one [TypeError]. *)
Definition seek_offset (v : pyval) : M Z :=
  match v with
  | PInt z => if z <? 0 then raise ValueError else ret z
  | PStr _ => raise TypeError
  end.

(** The body of the loop over [content.iter_any()]: report the chunk to the
    progress bar when there is one, then write it at the current file
    position. *)
Definition write_chunk (progress : bool) (pos : Z) (c : list Byte.byte) : M unit :=
  (if progress
   then modify (fun w => set_progress (w_progress w + Z.of_nat (length c)) w)
   else ret tt) ;;;
  file_write pos c.

Fixpoint write_chunks (progress : bool) (pos : Z) (chunks : list (list Byte.byte))
  : proc :=
  match chunks with
  | [] => PDone
  | c :: cs =>
      step (write_chunk progress pos c)
        (fun _ => write_chunks progress (pos + Z.of_nat (length c)) cs)
  end.

(** Lines 128-135, which run without an [await] between them: set the
    Range header, then send the request with [self.aiohttp_args]. *)
Definition fetch_request (filerange : pyval * pyval) : M response :=
  set_range filerange ;;;
  self <-- gets w_self ;;
  session_request (aiohttp_args self).

Definition fetch (progress : bool) (filerange : pyval * pyval) : proc :=
  step open_wb (fun _ =>
  step (fetch_request filerange) (fun filereq =>
  step (seek_offset filerange.1) (fun offset =>
  write_chunks progress offset (resp_chunks filereq)))).

(** The default argument [filerange=(0, "")]. *)
Definition fetch_default_range : pyval * pyval := (PInt 0, PStr "").

(* ------------------------------------------------------------------ *)
(** ** [download_single_threaded] (lines 143-161) *)

Definition download_single_threaded : M unit :=
  self <-- gets w_self ;;
  response <-- session_request (aiohttp_args self) ;;
  open_wb ;;;
  if progress_bar self then
    (match resp_headers response !! "Content-Length" with
     | Some cl => total <-- lift (py_int_of_string cl) ;; ret tt
     | None => ret tt
     end) ;;;
    run_proc (write_chunks true 0 (resp_chunks response))
  else run_proc (write_chunks false 0 (resp_chunks response)).

(* ------------------------------------------------------------------ *)
(** ** [download] (lines 163-206) *)

Definition download (sched : list nat) : M unit :=
  self <-- gets w_self ;;
  let temp_args := <["method" := AStr "HEAD"]> (aiohttp_args self) in
  head <-- session_request temp_args ;;
  match resp_headers head !! "Content-Length" with
  | None => download_single_threaded
  | Some cl =>
      length <-- lift (py_int_of_string cl) ;;
      open_wb ;;;
      file_write 0 (replicate (Z.to_nat length) Byte.x00) ;;;
      self' <-- gets w_self ;;
      ranges <-- lift (plan_ranges length (threads self')) ;;
      gather sched
        (map (fun r => fetch (progress_bar self') (PInt r.1, PInt r.2)) ranges)
  end.

(* ------------------------------------------------------------------ *)
(** ** [__init__], [asyncstart] and [start] *)

Definition init (url0 : string) (file0 : string) (threads0 : Z)
    (session0 : option nat) (progress_bar0 : bool)
    (aiohttp_args0 : option (gmap string arg)) (create_dir : bool) : M unit :=
  let args := match aiohttp_args0 with
              | None => {["method" := AStr "GET"]}
              | Some a => a
              end in
  (if create_dir then modify (set_parent_exists true) else ret tt) ;;;
  sn <-- (match session0 with
          | None =>
              sid <-- gets w_next_session ;;
              modify (set_next_session (S sid)) ;;;
              ret (sid, true)
          | Some s => ret (s, false)
          end) ;;
  let args' := if bool_decide (is_Some (args !! "method")) then args
               else <["method" := AStr "GET"]> args in
  modify (set_self (mkDownloader url0 file0 threads0 sn.1 sn.2 progress_bar0 args')).

Definition asyncstart (sched : list nat) : M unit :=
  download sched ;;;
  self <-- gets w_self ;;
  if new_session self then close (session self) else ret tt.

(** [loop.run_until_complete(self.asyncstart())]. *)
Definition start (sched : list nat) : M unit := asyncstart sched.

End Program.

(* ------------------------------------------------------------------ *)
(** ** Frame conditions *)

(** [m] leaves the observation [f] of the world unchanged, whatever it
    returns or raises. *)
Definition m_pres {X A} (f : world -> X) (m : M A) : Prop :=
  forall w, f (snd (m w)) = f w.

(** Every step of the coroutine leaves [f] unchanged. *)
Inductive p_pres {X} (f : world -> X) : proc -> Prop :=
| pp_done : p_pres f PDone
| pp_fail e : p_pres f (PFail e)
| pp_step eff next :
    (forall w, f (eff w) = f w) ->
    (forall w, p_pres f (next w)) ->
    p_pres f (PStep eff next).

(** The Transfer Descriptor as seen through the fields a caller set, with
    the ["Range"] entry of the ["headers"] mapping erased (and a missing
    ["headers"] mapping read as an empty one). *)
Definition strip_range (args : gmap string arg) : gmap string arg :=
  match args !! "headers" with
  | Some (AHeaders h) => <["headers" := AHeaders (delete "Range" h)]> args
  | None => <["headers" := AHeaders ∅]> args
  | Some _ => args
  end.

Definition descriptor_view (d : Downloader)
  : string * string * Z * nat * bool * bool * gmap string arg :=
  (url d, file d, threads d, session d, new_session d, progress_bar d,
   strip_range (aiohttp_args d)).

(** How many times [session.close()] was called on session [sid]. *)
Definition close_count (sid : nat) (w : world) : nat :=
  length (filter (fun s => s = sid) (w_closed w)).

(* ------------------------------------------------------------------ *)
(** ** Servers and worlds for concrete runs *)

Fixpoint decimal_digits (cs : list ascii) (acc : Z) : option Z :=
  match cs with
  | [] => Some acc
  | c :: cs' =>
      match digit_value c with
      | Some d => decimal_digits cs' (acc * 10 + d)
      | None => None
      end
  end.

(** [1*DIGIT] of HTTP. *)
Definition http_digits (s : string) : option Z :=
  match list_ascii_of_string s with
  | [] => None
  | cs => decimal_digits cs 0
  end.

(** A [bytes=first-last] or [bytes=first-] range specifier; [None] when the
    specifier is not well formed (including [last < first]). *)
Definition parse_byte_range (v : string) : option (Z * option Z) :=
  if String.prefix "bytes=" v then
    let rest := substring 6 (String.length v - 6) v in
    match String.index 0 "-" rest with
    | None => None
    | Some i =>
        let first := substring 0 i rest in
        let last := substring (S i) (String.length rest - S i) rest in
        match http_digits first with
        | None => None
        | Some a =>
            if String.eqb last "" then Some (a, None)
            else match http_digits last with
                 | Some b => if a <=? b then Some (a, Some b) else None
                 | None => None
                 end
        end
    end
  else None.

(** An HTTP server holding [resource]: [HEAD] reports its Content-Length;
    [GET] with a well-formed Range header returns the requested bytes,
    clipped at the end of the resource; otherwise the whole resource. *)
Definition range_server (resource : list Byte.byte) (r : request)
  : result response :=
  let len := Z.of_nat (length resource) in
  let full := mkResponse {["Content-Length" := py_str_int len]} [resource] in
  if String.eqb (req_method r) "HEAD" then
    Ok (mkResponse {["Content-Length" := py_str_int len]} [])
  else
    match req_headers r !! "Range" with
    | Some v =>
        match parse_byte_range v with
        | Some (a, b) =>
            let last := match b with Some b => Z.min b (len - 1) | None => len - 1 end in
            Ok (mkResponse ∅
                  [take (Z.to_nat (last - a + 1)) (drop (Z.to_nat a) resource)])
        | None => Ok full
        end
    | None => Ok full
    end.

(** A server that cannot be reached: every request fails. *)
Definition unreachable_server (r : request) : result response := Err ClientError.

Definition bytes_of (s : string) : list Byte.byte := list_byte_of_string s.

(** The world before a [Downloader] is constructed. *)
Definition world0 : world :=
  mkWorld (mkDownloader "" "" 0 0 false false ∅) false [] [] 0 [] 0.

(** [Downloader("http://example.com/data.bin", "data/data.bin", threads=2,
    progress_bar=False)]: default arguments, an owned session. *)
Definition owned_world : world :=
  snd (init "http://example.com/data.bin" "data/data.bin" 2 None false None true
         world0).

(** The same with a session supplied by the caller. *)
Definition borrowed_world : world :=
  snd (init "http://example.com/data.bin" "data/data.bin" 2 (Some 7%nat) false
         None true world0).

(** [owned_world] whose destination file already holds eight bytes. *)
Definition prefilled_world : world := set_disk (bytes_of "XXXXXXXX") owned_world.

(** A server whose [HEAD] response carries no Content-Length. *)
Definition unsized_server (resource : list Byte.byte) (r : request)
  : result response :=
  if String.eqb (req_method r) "HEAD" then Ok (mkResponse ∅ [])
  else Ok (mkResponse ∅ [resource]).

(** [aiohttp_args={"method": "GET", "headers": {"Range": "bytes=5-6"}}]. *)
Definition caller_range_world : world :=
  snd (init "http://example.com/data.bin" "data/data.bin" 2 None false
         (Some {["method" := AStr "GET";
                  "headers" := AHeaders {["Range" := "bytes=5-6"]}]}) true world0).

(** [threads=0]. *)
Definition zero_threads_world : world :=
  snd (init "http://example.com/data.bin" "data/data.bin" 0 None false None true
         world0).


(* ------------------------------------------------------------------ *)
(** ** [try] statements *)

(** [try: m  except: h]: the handler runs in the world [m] left behind; an
    exception it raises propagates. *)
Definition try_except {A} (m : M A) (h : exn -> M A) : M A :=
  fun w => match m w with
           | (Ok a, w') => (Ok a, w')
           | (Err e, w') => h e w'
           end.

(** [try: m  finally: f]: [f] runs on every exit of [m], and an exception
    raised by [f] replaces the outcome of [m]. *)
Definition try_finally {A} (m : M A) (f : M unit) : M A :=
  fun w => match m w with
           | (r, w') =>
               match f w' with
               | (Ok _, w'') => (r, w'')
               | (Err e, w'') => (Err e, w'')
               end
           end.

(* ------------------------------------------------------------------ *)
(** ** The callers: [GeoTiffHandler] and [GeoJSONHandler] *)

Section Handlers.

Variable serve : request -> result response.

(** [self._downloader.session.closed]. *)
Definition session_closed : M bool :=
  self <-- gets w_self ;;
  closed <-- gets w_closed ;;
  ret (bool_decide (session self ∈ closed)).

(** The [finally] block of [GeoTiffHandler._download] (lines 92-93) and the
    cleanup of the last [except] of [GeoJSONHandler.handle] (lines 61-62):
    close the session when the Downloader created it and it is still open. *)
Definition close_if_open : M unit :=
  self <-- gets w_self ;;
  closed <-- session_closed ;;
  if new_session self && negb closed then close (session self) else ret tt.

(** [GeoTiffHandler.__init__] (geotiff.py lines 58-64):
    [Downloader(self._url, f"{self._path}/{self._id}.tif")] with every
    other argument at its default. [xr.set_options(keep_attrs=True)] sets
    an option of xarray and is not modelled. *)
Definition geotiff_init (id url0 path : string) : M unit :=
  init url0 (String.append path (String.append "/" (String.append id ".tif")))
    4 None true None true.

(** [GeoTiffHandler._download] (geotiff.py lines 66-94). [is_file] is what
    [Path(f"{self._path}/{self._id}.tif").is_file()] returns (the world does
    not record which files exist); [sched1] schedules the workers of the
    download inside [asyncstart], [sched2] those of the retry. Printing is
    not modelled. *)
Definition geotiff_download (is_file : bool) (sched1 sched2 : list nat) : M Z :=
  try_finally
    (try_except
       (if is_file then ret 1
        else asyncstart serve sched1 ;;; ret 1)
       (fun e => match e with
                 | ValueError => download serve sched2 ;;; ret 1
                 | _ => ret (-1)
                 end))
    close_if_open.


(** [GeoJSONHandler.__init__] (geojson.py lines 8-11). *)
Definition geojson_init (id url0 temp_path : string) : M unit :=
  init url0 (String.append temp_path (String.append "/" (String.append id ".geojson")))
    4 None true None true.

(** [GeoJSONHandler.handle] (geojson.py lines 13-63). [convert] is the
    conversion of the files under [/tmp/geojson] to Parquet (lines 17-53),
    which runs on geopandas; it may raise. *)
Definition geojson_handle (sched1 sched2 : list nat) (convert : M unit) : M Z :=
  try_except
    (asyncstart serve sched1 ;;; convert ;;; ret 1)
    (fun e => match e with
              | ValueError =>
                  download serve sched2 ;;;
                  self <-- gets w_self ;;
                  (if new_session self then close (session self) else ret tt) ;;;
                  ret 1
              | _ => close_if_open ;;; ret (-1)
              end).

End Handlers.

(** [GeoTiffHandler("dem", "http://example.com/dem.tif")]. *)
Definition geotiff_world : world :=
  snd (geotiff_init "dem" "http://example.com/dem.tif" "/tmp/geotiff" world0).

(** [GeoJSONHandler("roads", "http://example.com/roads.geojson")]. *)
Definition geojson_world : world :=
  snd (geojson_init "roads" "http://example.com/roads.geojson" "/tmp/geojson" world0).

(* ================================================================== *)
(** * Properties *)

(* ------------------------------------------------------------------ *)
(** ** Concrete runs of the planner and of the formatting helpers *)

Example plan_ranges_1000_4 :
  plan_ranges 1000 4 = Ok [(0, 249); (250, 499); (500, 749); (750, 1000)].
Proof. reflexivity. Qed.

Example plan_ranges_1000_1 : plan_ranges 1000 1 = Ok [(0, 1000)].
Proof. reflexivity. Qed.

Example plan_ranges_1000_2 : plan_ranges 1000 2 = Ok [(0, 499); (500, 1000)].
Proof. reflexivity. Qed.

Example plan_ranges_10_4 :
  plan_ranges 10 4 = Ok [(0, 1); (2, 3); (4, 5); (6, 10)].
Proof. reflexivity. Qed.

Example py_format_100 : py_format (PInt 100) = "100".
Proof. reflexivity. Qed.

Example py_format_neg : py_format (PInt (-1)) = "-1".
Proof. reflexivity. Qed.

Example py_int_of_string_1000 : py_int_of_string " 1_000 " = Ok 1000.
Proof. reflexivity. Qed.

(* ------------------------------------------------------------------ *)
(** ** Shape of the planned ranges *)

Module Plan.

Lemma plan_loop_fst k base start ranges :
  (plan_loop k base start ranges).1 = start + Z.of_nat k * base.
Proof.
  revert start ranges; induction k as [|k IH]; intros start ranges; simpl.
  - lia.
  - rewrite IH. lia.
Qed.

Lemma plan_loop_length k base start ranges :
  length (plan_loop k base start ranges).2 = (length ranges + k)%nat.
Proof.
  revert start ranges; induction k as [|k IH]; intros start ranges; simpl.
  - lia.
  - rewrite IH, length_app. simpl. lia.
Qed.

Lemma plan_loop_prefix k base start ranges i :
  (i < length ranges)%nat ->
  (plan_loop k base start ranges).2 !! i = ranges !! i.
Proof.
  revert start ranges; induction k as [|k IH]; intros start ranges Hi; simpl.
  - reflexivity.
  - rewrite IH by (rewrite length_app; simpl; lia).
    apply lookup_app_l. exact Hi.
Qed.

Lemma plan_loop_new k base start ranges i :
  (i < k)%nat ->
  (plan_loop k base start ranges).2 !! (length ranges + i)%nat
  = Some (start + 1 + Z.of_nat i * base, start + (Z.of_nat i + 1) * base).
Proof.
  revert start ranges i; induction k as [|k IH]; intros start ranges i Hi;
    simpl; [lia|].
  destruct i as [|i].
  - rewrite plan_loop_prefix by (rewrite length_app; simpl; lia).
    rewrite Nat.add_0_r, lookup_app_r, Nat.sub_diag by lia. simpl.
    f_equal. f_equal; lia.
  - replace (length ranges + S i)%nat
      with (length (ranges ++ [((start + 1)%Z, (start + base)%Z)]) + i)%nat
      by (rewrite length_app; simpl; lia).
    rewrite IH by lia. f_equal. f_equal; lia.
Qed.

(** The planner's output, for a non-zero thread count: [n = threads - 1]
    ranges of width [base], then the final range up to [length]. *)
Lemma plan_ranges_shape (length threads : Z) (ranges : list (Z * Z)) :
  plan_ranges length threads = Ok ranges ->
  let n := Z.to_nat (threads - 1) in
  let base := Z.quot length threads in
  threads <> 0 /\
  List.length ranges = S n /\
  (forall i, (i < n)%nat ->
     ranges !! i = Some (Z.of_nat i * base, (Z.of_nat i + 1) * base - 1)) /\
  ranges !! n = Some (Z.of_nat n * base, length).
Proof.
  intros Heq n base.
  unfold plan_ranges, py_int_true_div in Heq.
  destruct (Z.eqb_spec threads 0) as [H0|H0]; [discriminate|].
  fold base in Heq. fold n in Heq.
  destruct (plan_loop n base (-1) []) as [st rs] eqn:Hloop.
  injection Heq as <-.
  pose proof (plan_loop_fst n base (-1) []) as Hf.
  pose proof (plan_loop_length n base (-1) []) as Hl.
  rewrite Hloop in Hf, Hl. simpl in Hf, Hl.
  split; [exact H0|]. split; [|split].
  - rewrite length_app, Hl. simpl. lia.
  - intros i Hi. rewrite lookup_app_l by lia.
    pose proof (plan_loop_new n base (-1) [] i Hi) as Hn.
    rewrite Hloop in Hn. simpl in Hn. rewrite Hn. f_equal. f_equal; lia.
  - rewrite lookup_app_r by lia. rewrite Hl, Nat.sub_diag. simpl.
    f_equal. f_equal. lia.
Qed.

(** Every entry is either one of the first [n] ranges or the final one. *)
Lemma plan_ranges_lookup (length threads : Z) ranges i r :
  plan_ranges length threads = Ok ranges ->
  ranges !! i = Some r ->
  let n := Z.to_nat (threads - 1) in
  let base := Z.quot length threads in
  ((i < n)%nat /\ r = (Z.of_nat i * base, (Z.of_nat i + 1) * base - 1))
  \/ (i = n /\ r = (Z.of_nat n * base, length)).
Proof.
  intros Hp Hi n base.
  destruct (plan_ranges_shape _ _ _ Hp) as (_ & Hlen & Hfirst & Hlast).
  pose proof (lookup_lt_Some _ _ _ Hi) as Hlt. fold n in Hlen.
  destruct (decide (i < n)%nat) as [Hin|Hin].
  - left. split; [exact Hin|]. rewrite Hfirst in Hi by exact Hin.
    injection Hi as <-. reflexivity.
  - right. assert (i = n) as -> by lia. split; [reflexivity|].
    unfold n in Hi. rewrite Hlast in Hi. injection Hi as <-. reflexivity.
Qed.

End Plan.

Lemma plan_ranges_ok (length threads : Z) :
  threads <> 0 -> exists ranges, plan_ranges length threads = Ok ranges.
Proof.
  intros H0. unfold plan_ranges, py_int_true_div.
  destruct (Z.eqb_spec threads 0) as [E|_]; [contradiction|].
  destruct (plan_loop _ _ _ _). eexists. reflexivity.
Qed.

Lemma quot_nonneg_div (length threads : Z) :
  0 <= length -> 1 <= threads -> Z.quot length threads = length / threads.
Proof. intros. apply Z.quot_div_nonneg; lia. Qed.

(** For [i < j], the range at [i] ends strictly before the range at [j]
    starts. *)
Lemma plan_ranges_ordered (length threads : Z) ranges (i j : nat) a b :
  0 <= length -> 1 <= threads ->
  plan_ranges length threads = Ok ranges ->
  (i < j)%nat -> ranges !! i = Some a -> ranges !! j = Some b ->
  a.2 < b.1.
Proof.
  intros HL HT Hp Hij Ha Hb.
  pose proof (Z.quot_pos length threads HL ltac:(lia)) as Hbase.
  destruct (Plan.plan_ranges_lookup _ _ _ _ _ Hp Ha) as [[Hi ->]|[Hi ->]];
  destruct (Plan.plan_ranges_lookup _ _ _ _ _ Hp Hb) as [[Hj ->]|[Hj ->]];
  simpl; try lia; nia.
Qed.

(* ------------------------------------------------------------------ *)
(** ** C1: the planned ranges partition [0, total_length] *)

(** C1. For [total_length >= 0] and [threads >= 1], the range-planning step
    of [download] yields exactly [threads] ranges: the first starts at 0,
    the last is [((threads-1) * base, total_length)], consecutive ranges are
    contiguous ([end + 1] is the next [start]), no byte lies in two ranges,
    each of the first [threads - 1] ranges spans [base = total_length /
    threads] bytes (floor division), and the last spans the remaining bytes
    up to and including [total_length]. *)
Theorem download_plan_partition (total_length threads : Z) :
  0 <= total_length -> 1 <= threads ->
  exists ranges : list (Z * Z),
    plan_ranges total_length threads = Ok ranges /\
    Z.of_nat (length ranges) = threads /\
    (exists e, ranges !! 0%nat = Some (0, e)) /\
    last ranges = Some ((threads - 1) * (total_length / threads), total_length) /\
    (forall (i : nat) a b,
        ranges !! i = Some a -> ranges !! S i = Some b -> a.2 + 1 = b.1) /\
    (forall (i j : nat) a b x,
        i <> j -> ranges !! i = Some a -> ranges !! j = Some b ->
        a.1 <= x <= a.2 -> ~ (b.1 <= x <= b.2)) /\
    (forall (i : nat) a,
        Z.of_nat i < threads - 1 -> ranges !! i = Some a ->
        a.2 - a.1 + 1 = total_length / threads) /\
    (forall a, last ranges = Some a ->
        a.2 - a.1 + 1 = total_length / threads + total_length mod threads + 1).
Proof.
  intros HL HT.
  destruct (plan_ranges_ok total_length threads ltac:(lia)) as [ranges Hp].
  exists ranges. split; [exact Hp|].
  pose proof (Plan.plan_ranges_shape _ _ _ Hp) as (_ & Hlen & Hfirst & Hlast).
  rewrite (quot_nonneg_div total_length threads HL HT) in Hfirst, Hlast.
  set (n := Z.to_nat (threads - 1)) in *.
  assert (Hn : Z.of_nat n = threads - 1) by (unfold n; lia).
  set (base := total_length / threads) in *.
  assert (Hbase : 0 <= base) by (apply Z.div_pos; lia).
  assert (Hlast' : last ranges = Some ((threads - 1) * base, total_length)).
  { rewrite last_lookup, Hlen. simpl. rewrite Hlast, Hn. reflexivity. }
  split; [rewrite Hlen; lia|].
  split.
  { destruct n as [|n'] eqn:En.
    - rewrite Hlast. eexists. f_equal; f_equal; simpl; lia.
    - rewrite Hfirst by lia. eexists. f_equal; f_equal; simpl; lia. }
  split; [exact Hlast'|].
  split.
  { intros i a b Ha Hb.
    destruct (Plan.plan_ranges_lookup _ _ _ _ _ Hp Ha) as [[Hi ->]|[Hi ->]];
    destruct (Plan.plan_ranges_lookup _ _ _ _ _ Hp Hb) as [[Hj ->]|[Hj ->]];
    simpl; try lia; nia. }
  split.
  { intros i j a b x Hij Ha Hb Hxa Hxb.
    destruct (Nat.lt_gt_cases i j) as [[Hlt|Hlt] _]; [lia| |].
    - pose proof (plan_ranges_ordered _ _ _ _ _ _ _ HL HT Hp Hlt Ha Hb). lia.
    - pose proof (plan_ranges_ordered _ _ _ _ _ _ _ HL HT Hp Hlt Hb Ha). lia. }
  split.
  { intros i a Hi Ha. rewrite Hfirst in Ha by lia.
    injection Ha as <-. simpl. lia. }
  intros a Ha. rewrite Hlast' in Ha. injection Ha as <-. simpl.
  pose proof (Z.div_mod total_length threads ltac:(lia)) as Hdm.
  fold base in Hdm. nia.
Qed.

Lemma download_plan_partition_witness :
  (0 <= 1000 /\ 1 <= 4) /\
  exists ranges : list (Z * Z),
    plan_ranges 1000 4 = Ok ranges /\
    Z.of_nat (length ranges) = 4 /\
    (exists e, ranges !! 0%nat = Some (0, e)) /\
    last ranges = Some ((4 - 1) * (1000 / 4), 1000) /\
    (forall (i : nat) a b,
        ranges !! i = Some a -> ranges !! S i = Some b -> a.2 + 1 = b.1) /\
    (forall (i j : nat) a b x,
        i <> j -> ranges !! i = Some a -> ranges !! j = Some b ->
        a.1 <= x <= a.2 -> ~ (b.1 <= x <= b.2)) /\
    (forall (i : nat) a,
        Z.of_nat i < 4 - 1 -> ranges !! i = Some a ->
        a.2 - a.1 + 1 = 1000 / 4) /\
    (forall a, last ranges = Some a ->
        a.2 - a.1 + 1 = 1000 / 4 + 1000 mod 4 + 1).
Proof.
  split; [split; lia|].
  apply (download_plan_partition 1000 4); lia.
Defined.

(* ------------------------------------------------------------------ *)
(** ** C6: bounds of each planned range *)

(** C6 as stated fails: for [total_length = 1] and [threads = 2] the plan is
    [[(0, -1); (0, 1)]], whose first range has [end < start]. *)
Lemma download_plan_range_bounds_counterexample :
  ~ (forall total_length threads : Z,
       0 <= total_length -> 1 <= threads ->
       forall ranges, plan_ranges total_length threads = Ok ranges ->
       forall r, r ∈ ranges -> 0 <= r.1 /\ r.1 <= r.2).
Proof.
  intros H.
  destruct (H 1 2 ltac:(lia) ltac:(lia) [(0, -1); (0, 1)] eq_refl (0, -1))
    as [_ Hc].
  - constructor.
  - simpl in Hc. lia.
Qed.

(** C6 (amended). For [total_length >= 0] and [threads >= 1], every planned
    range [(start, end)] has [start >= 0] and [end >= start - 1]; when
    [total_length >= threads] every range has [end >= start]; a range with
    [end < start] is [(0, -1)], which happens only when
    [total_length < threads]. *)
Theorem download_plan_range_bounds (total_length threads : Z)
    (ranges : list (Z * Z)) :
  0 <= total_length -> 1 <= threads ->
  plan_ranges total_length threads = Ok ranges ->
  forall r, r ∈ ranges ->
    0 <= r.1 /\ r.1 - 1 <= r.2 /\
    (threads <= total_length -> r.1 <= r.2) /\
    (r.2 < r.1 -> total_length < threads /\ r = (0, -1)).
Proof.
  intros HL HT Hp r Hr.
  apply list_elem_of_lookup in Hr as [i Hi].
  set (base := Z.quot total_length threads).
  assert (Hb0 : 0 <= base) by (apply Z.quot_pos; lia).
  assert (Hbl : threads * base <= total_length)
    by (unfold base; rewrite quot_nonneg_div by lia; apply Z.mul_div_le; lia).
  assert (Hb1 : threads <= total_length -> 1 <= base).
  { intros Hle. unfold base. rewrite quot_nonneg_div by lia.
    apply Z.div_le_lower_bound; lia. }
  assert (Hbz : total_length < threads -> base = 0).
  { intros Hlt. unfold base. rewrite quot_nonneg_div by lia.
    apply Z.div_small; lia. }
  destruct (Plan.plan_ranges_lookup _ _ _ _ _ Hp Hi) as [[Hin ->]|[Hin ->]];
    fold base; simpl.
  - split; [nia|]. split; [nia|]. split; [intros; specialize (Hb1 ltac:(lia)); nia|].
    intros Hlt.
    destruct (Z_lt_le_dec total_length threads) as [Hlt'|Hge].
    + rewrite (Hbz Hlt'). split; [exact Hlt'|]. f_equal; lia.
    + specialize (Hb1 Hge). nia.
  - assert (Hn : Z.of_nat (Z.to_nat (threads - 1)) = threads - 1) by lia.
    rewrite Hn. split; [nia|]. split; [nia|]. split; [intros; nia|].
    intros Hlt. exfalso. nia.
Qed.

Lemma download_plan_range_bounds_witness :
  (0 <= 1 /\ 1 <= 2 /\ plan_ranges 1 2 = Ok [(0, -1); (0, 1)]) /\
  (forall r, r ∈ [(0, -1); (0, 1)] ->
    0 <= r.1 /\ r.1 - 1 <= r.2 /\
    (2 <= 1 -> r.1 <= r.2) /\
    (r.2 < r.1 -> 1 < 2 /\ r = (0, -1))).
Proof.
  split; [split; [lia|split; [lia|reflexivity]]|].
  apply (download_plan_range_bounds 1 2); [lia|lia|reflexivity].
Defined.

(* ------------------------------------------------------------------ *)
(** ** Frame lemmas *)

Module Frame.

Section Pres.
Context {X : Type} (f : world -> X).

Lemma bind_pres {A B} (m : M A) (k : A -> M B) :
  m_pres f m -> (forall a, m_pres f (k a)) -> m_pres f (bind m k).
Proof.
  intros Hm Hk w. unfold bind.
  specialize (Hm w). destruct (m w) as [[a|e] w'] eqn:E; simpl in *.
  - rewrite Hk. exact Hm.
  - exact Hm.
Qed.

Lemma ret_pres {A} (a : A) : m_pres f (ret a).
Proof. intros w. reflexivity. Qed.

Lemma raise_pres {A} e : m_pres f (@raise A e).
Proof. intros w. reflexivity. Qed.

Lemma gets_pres {A} (g : world -> A) : m_pres f (gets g).
Proof. intros w. reflexivity. Qed.

Lemma lift_pres {A} (r : result A) : m_pres f (lift r).
Proof. intros w. reflexivity. Qed.

Lemma modify_pres (g : world -> world) :
  (forall w, f (g w) = f w) -> m_pres f (modify g).
Proof. intros H w. apply H. Qed.

Lemma step_pres {A} (m : M A) (k : A -> proc) :
  m_pres f m -> (forall a, p_pres f (k a)) -> p_pres f (step m k).
Proof.
  intros Hm Hk. constructor.
  - exact Hm.
  - intros w. destruct (fst (m w)); [apply Hk|constructor].
Qed.

Lemma run_proc_pres p : p_pres f p -> m_pres f (run_proc p).
Proof.
  induction 1 as [|e|eff next Heff Hnext IH]; intros w; try reflexivity.
  simpl. rewrite IH. apply Heff.
Qed.

Lemma run_sched_pres sched ts w :
  Forall (p_pres f) ts ->
  f (snd (run_sched sched ts w)) = f w /\
  (forall ts', fst (run_sched sched ts w) = Ok ts' -> Forall (p_pres f) ts').
Proof.
  revert ts w; induction sched as [|i sched IH]; intros ts w Hts; simpl.
  - split; [reflexivity|]. intros ts' [= <-]. exact Hts.
  - destruct (ts !! i) as [[|e|eff next]|] eqn:Ei; try (apply IH; exact Hts).
    pose proof (proj1 (Forall_lookup _ _) Hts i _ Ei) as Hp.
    inversion Hp as [| |eff' next' Heff Hnext]; subst.
    destruct (next w) as [|e|eff2 next2] eqn:En.
    + destruct (IH (<[i:=PDone]> ts) (eff w)) as [IH1 IH2].
      { apply Forall_insert; [exact Hts|constructor]. }
      split; [rewrite IH1; apply Heff|exact IH2].
    + simpl. split; [apply Heff|discriminate].
    + destruct (IH (<[i:=PStep eff2 next2]> ts) (eff w)) as [IH1 IH2].
      { apply Forall_insert; [exact Hts|]. rewrite <- En. apply Hnext. }
      split; [rewrite IH1; apply Heff|exact IH2].
Qed.

Lemma run_all_pres ts : Forall (p_pres f) ts -> m_pres f (run_all ts).
Proof.
  induction 1 as [|t ts Ht Hts IH]; simpl.
  - apply ret_pres.
  - apply bind_pres; [apply run_proc_pres, Ht|intros _; exact IH].
Qed.

Lemma gather_pres sched ts : Forall (p_pres f) ts -> m_pres f (gather sched ts).
Proof.
  intros Hts w. unfold gather.
  destruct (run_sched_pres sched ts w Hts) as [H1 H2].
  destruct (run_sched sched ts w) as [[ts'|e] w'] eqn:E; simpl in *.
  - rewrite run_all_pres by (apply H2; reflexivity). exact H1.
  - exact H1.
Qed.

End Pres.

Create HintDb pres.
#[export] Hint Resolve ret_pres raise_pres gets_pres lift_pres : pres.

(** Break an [M] or [proc] program into its primitives. *)
Ltac pres_auto :=
  repeat match goal with
  | |- m_pres _ (bind _ _) => apply bind_pres; [|intros ?]
  | |- m_pres _ (modify _) =>
      apply modify_pres; intros ?; try solve [reflexivity | auto]
  | |- m_pres _ (if ?b then _ else _) => destruct b
  | |- m_pres _ (match ?x with _ => _ end) => destruct x
  | |- p_pres _ (step _ _) => apply step_pres; [|intros ?]
  | |- p_pres _ PDone => constructor
  | |- m_pres _ (run_proc _) => apply run_proc_pres
  | |- m_pres _ _ => eauto with pres
  | |- p_pres _ _ => eauto with pres
  end.

End Frame.

Module Effects.
Import Frame.

(** The operations that do not touch the session pool or the Downloader
    object, whatever they read. *)
Section Common.
Context {X : Type} (f : world -> X) (serve : request -> result response).
Hypothesis f_disk : forall b w, f (set_disk b w) = f w.
Hypothesis f_requests : forall r w, f (set_requests r w) = f w.
Hypothesis f_progress : forall p w, f (set_progress p w) = f w.
Hypothesis f_set_range : forall filerange, m_pres f (set_range filerange).

Lemma open_wb_pres : m_pres f open_wb.
Proof.
  intros w. unfold open_wb. destruct (w_parent_exists w); simpl; auto.
Qed.

Lemma file_write_pres pos c : m_pres f (file_write pos c).
Proof. unfold file_write. pres_auto. Qed.

Lemma session_request_pres args : m_pres f (session_request serve args).
Proof. unfold session_request. pres_auto. Qed.

Lemma seek_offset_pres v : m_pres f (seek_offset v).
Proof. unfold seek_offset. pres_auto. Qed.

Lemma write_chunks_pres progress pos cs : p_pres f (write_chunks progress pos cs).
Proof.
  revert pos; induction cs as [|c cs IH]; intros pos; simpl; [constructor|].
  apply step_pres; [|intros _; apply IH].
  unfold write_chunk. pres_auto; apply file_write_pres.
Qed.

Lemma fetch_request_pres filerange : m_pres f (fetch_request serve filerange).
Proof.
  unfold fetch_request. apply bind_pres; [apply f_set_range|intros _].
  pres_auto. apply session_request_pres.
Qed.

Lemma fetch_pres progress filerange : p_pres f (fetch serve progress filerange).
Proof.
  unfold fetch.
  apply step_pres; [apply open_wb_pres|intros _].
  apply step_pres; [apply fetch_request_pres|intros r].
  apply step_pres; [apply seek_offset_pres|intros o].
  apply write_chunks_pres.
Qed.

Lemma download_single_threaded_pres : m_pres f (download_single_threaded serve).
Proof.
  unfold download_single_threaded.
  apply bind_pres; [pres_auto|intros self].
  apply bind_pres; [apply session_request_pres|intros resp].
  apply bind_pres; [apply open_wb_pres|intros _].
  destruct (progress_bar self).
  - apply bind_pres; [pres_auto|intros _].
    apply run_proc_pres, write_chunks_pres.
  - apply run_proc_pres, write_chunks_pres.
Qed.

Lemma download_pres sched : m_pres f (download serve sched).
Proof.
  unfold download.
  apply bind_pres; [pres_auto|intros self].
  apply bind_pres; [apply session_request_pres|intros head].
  destruct (resp_headers head !! "Content-Length") as [cl|].
  - apply bind_pres; [pres_auto|intros len].
    apply bind_pres; [apply open_wb_pres|intros _].
    apply bind_pres; [apply file_write_pres|intros _].
    apply bind_pres; [pres_auto|intros self'].
    apply bind_pres; [pres_auto|intros ranges].
    apply gather_pres. apply Forall_forall. intros t Ht.
    apply list_elem_of_In, in_map_iff in Ht as (r & <- & _). apply fetch_pres.
  - apply download_single_threaded_pres.
Qed.

End Common.

(** [set_range] leaves the session pool alone. *)
Lemma set_range_closed filerange : m_pres w_closed (set_range filerange).
Proof. unfold set_range. pres_auto. Qed.

(** [set_range] changes the descriptor only in the ["Range"] entry of its
    ["headers"] mapping (creating that mapping when it is missing). *)
Lemma set_range_descriptor filerange :
  m_pres (fun w => descriptor_view (w_self w)) (set_range filerange).
Proof.
  intros w. unfold set_range, bind, gets, modify, raise. simpl.
  destruct (aiohttp_args (w_self w) !! "headers") as [[s|z|h]|] eqn:E; simpl.
  - rewrite E. reflexivity.
  - rewrite E. reflexivity.
  - rewrite E. unfold descriptor_view. simpl. f_equal.
    unfold strip_range. rewrite lookup_insert_eq, E, insert_insert_eq.
    rewrite delete_insert_eq. reflexivity.
  - rewrite lookup_insert_eq. simpl.
    unfold descriptor_view. simpl. f_equal.
    unfold strip_range. rewrite lookup_insert_eq, E, !insert_insert_eq.
    rewrite delete_insert_eq, delete_empty. reflexivity.
Qed.

End Effects.

(* ------------------------------------------------------------------ *)
(** ** What one [fetch] does *)

Module Fetch.

Lemma write_at_append pos c d :
  length d = Z.to_nat pos -> write_at pos c d = d ++ c.
Proof.
  intros Hd. unfold write_at. destruct c as [|b c]; [by rewrite app_nil_r|].
  rewrite take_ge by lia. rewrite drop_ge by lia.
  rewrite Hd, Nat.sub_diag, app_nil_r. reflexivity.
Qed.

Lemma write_at_empty_disk pos c :
  c <> [] -> write_at pos c [] = replicate (Z.to_nat pos) Byte.x00 ++ c.
Proof.
  intros Hc. unfold write_at. destruct c as [|b c]; [contradiction|].
  simpl. rewrite Nat.sub_0_r, take_nil, drop_nil, app_nil_r. reflexivity.
Qed.

Lemma run_step {A} (m : M A) (k : A -> proc) w :
  run_proc (step m k) w
  = run_proc (match fst (m w) with Ok a => k a | Err e => PFail e end) (snd (m w)).
Proof. reflexivity. Qed.

Lemma write_chunk_run progress pos c w :
  fst (write_chunk progress pos c w) = Ok tt /\
  w_disk (snd (write_chunk progress pos c w)) = write_at pos c (w_disk w).
Proof. destruct progress; split; reflexivity. Qed.

(** Writing the chunks at the end of the file appends them. *)
Lemma write_chunks_append progress pos cs w :
  length (w_disk w) = Z.to_nat pos -> 0 <= pos ->
  fst (run_proc (write_chunks progress pos cs) w) = Ok tt /\
  w_disk (snd (run_proc (write_chunks progress pos cs) w)) = w_disk w ++ concat cs.
Proof.
  revert pos w; induction cs as [|c cs IH]; intros pos w Hlen Hpos.
  - simpl. rewrite app_nil_r. split; reflexivity.
  - simpl write_chunks. rewrite run_step.
    destruct (write_chunk_run progress pos c w) as [E1 E2]. rewrite E1.
    rewrite write_at_append in E2 by exact Hlen.
    destruct (IH (pos + Z.of_nat (length c)) (snd (write_chunk progress pos c w)))
      as [IH1 IH2].
    + rewrite E2, length_app. lia.
    + lia.
    + split; [exact IH1|]. rewrite IH2, E2, <- app_assoc. reflexivity.
Qed.

(** Writing the chunks into an empty file from position [pos]: zeros up to
    [pos], then the chunks; nothing at all when every chunk is empty. *)
Lemma write_chunks_from_empty progress pos cs w :
  w_disk w = [] -> 0 <= pos ->
  fst (run_proc (write_chunks progress pos cs) w) = Ok tt /\
  w_disk (snd (run_proc (write_chunks progress pos cs) w))
  = match concat cs with
    | [] => []
    | _ => replicate (Z.to_nat pos) Byte.x00 ++ concat cs
    end.
Proof.
  revert pos w; induction cs as [|c cs IH]; intros pos w Hd Hpos.
  - simpl. split; [reflexivity|exact Hd].
  - simpl write_chunks. rewrite run_step.
    destruct (write_chunk_run progress pos c w) as [E1 E2]. rewrite E1.
    rewrite Hd in E2.
    destruct c as [|b c].
    + simpl in E2. simpl length. rewrite Z.add_0_r.
      apply IH; [exact E2|exact Hpos].
    + rewrite write_at_empty_disk in E2 by discriminate.
      destruct (write_chunks_append progress (pos + Z.of_nat (length (b :: c))) cs
                  (snd (write_chunk progress pos (b :: c) w))) as [H1 H2].
      * rewrite E2, length_app, length_replicate. lia.
      * lia.
      * split; [exact H1|]. rewrite H2, E2. simpl.
        rewrite <- app_assoc. reflexivity.
Qed.

End Fetch.

Module Request.
Import Frame.

Lemma method_of_insert_headers args v :
  method_of (<["headers" := v]> args) = method_of args.
Proof. unfold method_of. rewrite lookup_insert_ne by discriminate. reflexivity. Qed.

Lemma headers_of_insert_headers args h :
  headers_of (<["headers" := AHeaders h]> args) = Ok h.
Proof. unfold headers_of. rewrite lookup_insert_eq. reflexivity. Qed.

(** The request step of [fetch] (lines 128-135), from any world: it records
    the Range entry in [self.aiohttp_args] and sends one request whose
    headers are the caller's with ["Range"] set. *)
Lemma fetch_request_run serve filerange w m h :
  session (w_self w) ∉ w_closed w ->
  method_of (aiohttp_args (w_self w)) = Ok m ->
  headers_of (aiohttp_args (w_self w)) = Ok h ->
  let req := mkRequest m (url (w_self w)) (<["Range" := range_header filerange]> h) in
  fetch_request serve filerange w =
    (serve req,
     set_requests (w_requests w ++ [req])
       (set_self (set_args
          (<["headers" := AHeaders (<["Range" := range_header filerange]> h)]>
             (aiohttp_args (w_self w))) (w_self w)) w)).
Proof.
  intros Hs Hm Hh req.
  assert (Hargs : exists args1,
    set_range filerange w =
      (Ok tt, set_self (set_args
        (<["headers" := AHeaders (<["Range" := range_header filerange]> h)]> args1)
        (w_self w)) w) /\
    <["headers" := AHeaders (<["Range" := range_header filerange]> h)]> args1
    = <["headers" := AHeaders (<["Range" := range_header filerange]> h)]>
        (aiohttp_args (w_self w))).
  { unfold headers_of in Hh. unfold set_range, bind, gets, modify. simpl.
    destruct (aiohttp_args (w_self w) !! "headers") as [[s|z|h0]|] eqn:E;
      try discriminate Hh; injection Hh as <-;
      [rewrite bool_decide_true by (eexists; reflexivity)
      |rewrite bool_decide_false by (intros [? ?]; discriminate)];
      rewrite ?E, ?lookup_insert_eq; simpl.
    - eexists. split; reflexivity.
    - eexists. split; [reflexivity|]. apply insert_insert_eq. }
  destruct Hargs as [args1 [Hset Heq]].
  unfold fetch_request, bind at 1. rewrite Hset. rewrite Heq.
  unfold bind, gets. simpl.
  unfold session_request, bind, gets, lift, modify. simpl.
  rewrite bool_decide_false by exact Hs.
  rewrite method_of_insert_headers, Hm, headers_of_insert_headers. reflexivity.
Qed.

Lemma write_chunks_requests progress pos cs :
  p_pres w_requests (write_chunks progress pos cs).
Proof.
  revert pos; induction cs as [|c cs IH]; intros pos; simpl; [constructor|].
  apply Frame.step_pres; [|intros _; apply IH].
  unfold write_chunk, file_write. Frame.pres_auto.
Qed.

(** A whole [fetch] run with nothing interleaved: it truncates the file,
    sends one request with the Range header set, and writes the response
    body from the start offset onward. *)
Lemma fetch_run serve progress filerange w m h resp s :
  w_parent_exists w = true ->
  session (w_self w) ∉ w_closed w ->
  method_of (aiohttp_args (w_self w)) = Ok m ->
  headers_of (aiohttp_args (w_self w)) = Ok h ->
  filerange.1 = PInt s -> 0 <= s ->
  serve (mkRequest m (url (w_self w)) (<["Range" := range_header filerange]> h))
    = Ok resp ->
  fst (run_proc (fetch serve progress filerange) w) = Ok tt /\
  w_requests (snd (run_proc (fetch serve progress filerange) w))
    = w_requests w
      ++ [mkRequest m (url (w_self w)) (<["Range" := range_header filerange]> h)] /\
  w_disk (snd (run_proc (fetch serve progress filerange) w))
    = match concat (resp_chunks resp) with
      | [] => []
      | _ => replicate (Z.to_nat s) Byte.x00 ++ concat (resp_chunks resp)
      end.
Proof.
  intros Hp Hs Hm Hh Hfr Hpos Hserve.
  unfold fetch. rewrite Fetch.run_step.
  assert (Hopen : open_wb w = (Ok tt, set_disk [] w))
    by (unfold open_wb; rewrite Hp; reflexivity).
  rewrite Hopen. simpl. rewrite ?Fetch.run_step.
  rewrite (fetch_request_run serve filerange (set_disk [] w) m h Hs Hm Hh).
  simpl. rewrite Hserve. simpl. rewrite ?Fetch.run_step.
  unfold seek_offset. rewrite Hfr.
  destruct (Z.ltb_spec s 0) as [Hlt|_]; [lia|]. simpl.
  match goal with
  | |- context [run_proc (write_chunks ?p ?o ?cs) ?w2] =>
      destruct (Fetch.write_chunks_from_empty p o cs w2) as [H1 H2];
      [reflexivity|exact Hpos|];
      pose proof (Frame.run_proc_pres w_requests _ (write_chunks_requests p o cs) w2)
        as H3
  end.
  split; [exact H1|]. split; [rewrite H3; reflexivity|exact H2].
Qed.

End Request.

(* ------------------------------------------------------------------ *)
(** ** C7: the Range header of a worker's request *)

Example range_header_100_200 : range_header (PInt 100, PInt 200) = "bytes=100-200".
Proof. reflexivity. Qed.

(** C7. The request step of a [fetch] worker assigned [filerange], run from
    any state (whatever the other workers did before), sends exactly one
    request whose ["Range"] header is ["bytes=" ++ start ++ "-" ++ end]; any
    ["Range"] entry the caller put in the headers is replaced, and every
    other header is the caller's. *)
Theorem fetch_sets_range_header serve filerange w m h :
  session (w_self w) ∉ w_closed w ->
  method_of (aiohttp_args (w_self w)) = Ok m ->
  headers_of (aiohttp_args (w_self w)) = Ok h ->
  exists req,
    w_requests (snd (fetch_request serve filerange w)) = w_requests w ++ [req] /\
    req_headers req !! "Range"
      = Some (String.append "bytes="
                (String.append (py_format filerange.1)
                   (String.append "-" (py_format filerange.2)))) /\
    (forall k, k <> "Range" -> req_headers req !! k = h !! k).
Proof.
  intros Hs Hm Hh.
  rewrite (Request.fetch_request_run serve filerange w m h Hs Hm Hh).
  eexists. split; [reflexivity|]. simpl. split.
  - rewrite lookup_insert_eq. reflexivity.
  - intros k Hk. rewrite lookup_insert_ne by congruence. reflexivity.
Qed.

Lemma fetch_sets_range_header_witness :
  ((session (w_self caller_range_world) ∉ w_closed caller_range_world) /\
   method_of (aiohttp_args (w_self caller_range_world)) = Ok "GET" /\
   headers_of (aiohttp_args (w_self caller_range_world))
     = Ok ({["Range" := "bytes=5-6"]} : gmap string string)) /\
  exists req,
    w_requests (snd (fetch_request (range_server (bytes_of "abcd"))
                       (PInt 100, PInt 200) caller_range_world))
      = w_requests caller_range_world ++ [req] /\
    req_headers req !! "Range"
      = Some (String.append "bytes="
                (String.append (py_format (PInt 100, PInt 200).1)
                   (String.append "-" (py_format (PInt 100, PInt 200).2)))) /\
    (forall k, k <> "Range" ->
       req_headers req !! k = ({["Range" := "bytes=5-6"]} : gmap string string) !! k).
Proof.
  assert (Hs : session (w_self caller_range_world) ∉ w_closed caller_range_world)
    by (vm_compute; apply not_elem_of_nil).
  assert (Hm : method_of (aiohttp_args (w_self caller_range_world)) = Ok "GET")
    by reflexivity.
  assert (Hh : headers_of (aiohttp_args (w_self caller_range_world))
                 = Ok ({["Range" := "bytes=5-6"]} : gmap string string)) by reflexivity.
  split; [split; [exact Hs|split; [exact Hm|exact Hh]]|].
  apply (fetch_sets_range_header (range_server (bytes_of "abcd"))
           (PInt 100, PInt 200) caller_range_world "GET" _ Hs Hm Hh).
Defined.

(* ------------------------------------------------------------------ *)
(** ** C10: [fetch] with its default range *)

(** C10. [fetch] with its default argument [filerange = (0, "")], run to
    completion, sends one request whose Range header is ["bytes=0-"] and
    leaves the destination file holding exactly the response body, written
    from offset 0. *)
Theorem fetch_default_range_run serve progress w m h resp :
  w_parent_exists w = true ->
  session (w_self w) ∉ w_closed w ->
  method_of (aiohttp_args (w_self w)) = Ok m ->
  headers_of (aiohttp_args (w_self w)) = Ok h ->
  serve (mkRequest m (url (w_self w)) (<["Range" := "bytes=0-"]> h)) = Ok resp ->
  fst (run_proc (fetch serve progress fetch_default_range) w) = Ok tt /\
  w_requests (snd (run_proc (fetch serve progress fetch_default_range) w))
    = w_requests w ++ [mkRequest m (url (w_self w)) (<["Range" := "bytes=0-"]> h)] /\
  w_disk (snd (run_proc (fetch serve progress fetch_default_range) w))
    = concat (resp_chunks resp).
Proof.
  intros Hp Hs Hm Hh Hserve.
  destruct (Request.fetch_run serve progress fetch_default_range w m h resp 0
              Hp Hs Hm Hh eq_refl ltac:(lia) Hserve) as (H1 & H2 & H3).
  split; [exact H1|]. split; [exact H2|]. rewrite H3.
  destruct (concat (resp_chunks resp)); reflexivity.
Qed.

Lemma fetch_default_range_run_witness :
  (w_parent_exists owned_world = true /\
   (session (w_self owned_world) ∉ w_closed owned_world) /\
   method_of (aiohttp_args (w_self owned_world)) = Ok "GET" /\
   headers_of (aiohttp_args (w_self owned_world)) = Ok ∅ /\
   range_server (bytes_of "abcd")
     (mkRequest "GET" (url (w_self owned_world)) (<["Range" := "bytes=0-"]> ∅))
     = Ok (mkResponse ∅ [bytes_of "abcd"])) /\
  fst (run_proc (fetch (range_server (bytes_of "abcd")) false fetch_default_range)
         owned_world) = Ok tt /\
  w_requests (snd (run_proc (fetch (range_server (bytes_of "abcd")) false
                               fetch_default_range) owned_world))
    = w_requests owned_world
      ++ [mkRequest "GET" (url (w_self owned_world)) (<["Range" := "bytes=0-"]> ∅)] /\
  w_disk (snd (run_proc (fetch (range_server (bytes_of "abcd")) false
                           fetch_default_range) owned_world))
    = concat (resp_chunks (mkResponse ∅ [bytes_of "abcd"])).
Proof.
  assert (Hp : w_parent_exists owned_world = true) by reflexivity.
  assert (Hs : session (w_self owned_world) ∉ w_closed owned_world)
    by (vm_compute; apply not_elem_of_nil).
  assert (Hm : method_of (aiohttp_args (w_self owned_world)) = Ok "GET")
    by reflexivity.
  assert (Hh : headers_of (aiohttp_args (w_self owned_world)) = Ok ∅)
    by reflexivity.
  assert (Hserve : range_server (bytes_of "abcd")
     (mkRequest "GET" (url (w_self owned_world)) (<["Range" := "bytes=0-"]> ∅))
     = Ok (mkResponse ∅ [bytes_of "abcd"])) by reflexivity.
  split; [repeat split; assumption|].
  apply (fetch_default_range_run (range_server (bytes_of "abcd")) false owned_world
           "GET" ∅ _ Hp Hs Hm Hh Hserve).
Defined.

(* ------------------------------------------------------------------ *)
(** ** C3: [fetch] truncates the destination file *)

(** A successful [fetch] leaves a file that depends only on its own
    response: zeros before the start offset, then the body; whatever the
    file held before, inside or outside the range, is gone. *)
Lemma fetch_overwrites_file serve progress start end_ w m h resp :
  w_parent_exists w = true ->
  session (w_self w) ∉ w_closed w ->
  method_of (aiohttp_args (w_self w)) = Ok m ->
  headers_of (aiohttp_args (w_self w)) = Ok h ->
  0 <= start ->
  serve (mkRequest m (url (w_self w))
           (<["Range" := range_header (PInt start, PInt end_)]> h)) = Ok resp ->
  w_disk (snd (run_proc (fetch serve progress (PInt start, PInt end_)) w))
    = match concat (resp_chunks resp) with
      | [] => []
      | _ => replicate (Z.to_nat start) Byte.x00 ++ concat (resp_chunks resp)
      end.
Proof.
  intros Hp Hs Hm Hh Hpos Hserve.
  destruct (Request.fetch_run serve progress (PInt start, PInt end_) w m h resp start
              Hp Hs Hm Hh eq_refl Hpos Hserve) as (_ & _ & H3).
  exact H3.
Qed.

(** C3 (at the failing input). The destination holds ["XXXXXXXX"]; a
    [fetch] of range [(2, 3)] against a server holding ["abcdefgh"] leaves
    ["\0\0cd"]: bytes 0-1 outside the range were overwritten with zeros and
    bytes 4-7 were cut off by the ["wb"] open. *)
Theorem fetch_truncates_destination :
  w_disk prefilled_world = bytes_of "XXXXXXXX" /\
  fst (run_proc (fetch (range_server (bytes_of "abcdefgh")) false (PInt 2, PInt 3))
         prefilled_world) = Ok tt /\
  w_disk (snd (run_proc (fetch (range_server (bytes_of "abcdefgh")) false
                           (PInt 2, PInt 3)) prefilled_world))
    = [Byte.x00; Byte.x00] ++ bytes_of "cd".
Proof. split; [reflexivity|split; vm_compute; reflexivity]. Qed.

(* ------------------------------------------------------------------ *)
(** ** C4: the file after a multi-range download *)

(** When both workers open the file before either writes, the file is the
    resource. *)
Example download_opens_first :
  fst (download (range_server (bytes_of "abcd")) [0; 1]%nat owned_world) = Ok tt /\
  w_disk (snd (download (range_server (bytes_of "abcd")) [0; 1]%nat owned_world))
    = bytes_of "abcd".
Proof. split; vm_compute; reflexivity. Qed.

(** C4 (at the failing input). [threads=2], a server holding ["abcd"]
    (Content-Length 4, ranges [(0, 1)] and [(2, 4)]), and the schedule in
    which worker 0 finishes before worker 1 opens the file: [download]
    succeeds and the two range responses concatenate to ["abcd"], but the
    file holds ["\0\0cd"], because worker 1's ["wb"] open truncated what
    worker 0 wrote. *)
Theorem download_sequential_workers_lose_data :
  plan_ranges 4 2 = Ok [(0, 1); (2, 4)] /\
  fst (download (range_server (bytes_of "abcd")) [] owned_world) = Ok tt /\
  map (fun r => match range_server (bytes_of "abcd") r with
                | Ok resp => concat (resp_chunks resp)
                | Err _ => []
                end)
      (drop 1 (w_requests (snd (download (range_server (bytes_of "abcd")) []
                                   owned_world))))
    = [bytes_of "ab"; bytes_of "cd"] /\
  w_disk (snd (download (range_server (bytes_of "abcd")) [] owned_world))
    = [Byte.x00; Byte.x00] ++ bytes_of "cd".
Proof.
  split; [reflexivity|]. split; [vm_compute; reflexivity|].
  split; vm_compute; reflexivity.
Qed.

(* ------------------------------------------------------------------ *)
(** ** C5: fallback when the probe has no Content-Length *)

(** C5. When the HEAD probe returns a response without Content-Length,
    [download] behaves exactly as [download_single_threaded] run right after
    the probe, whatever the worker schedule: no pre-sizing write, no range
    planning, no [fetch] worker. *)
Theorem download_fallback_without_length serve sched w resp w1 :
  session_request serve (<["method" := AStr "HEAD"]> (aiohttp_args (w_self w))) w
    = (Ok resp, w1) ->
  resp_headers resp !! "Content-Length" = None ->
  download serve sched w = download_single_threaded serve w1.
Proof.
  intros Hhead Hcl.
  unfold download, bind at 1, gets at 1. simpl.
  unfold bind at 1. rewrite Hhead. rewrite Hcl. reflexivity.
Qed.

Lemma download_fallback_without_length_witness :
  (session_request (unsized_server (bytes_of "abcd"))
     (<["method" := AStr "HEAD"]> (aiohttp_args (w_self owned_world))) owned_world
   = (Ok (mkResponse ∅ []),
      snd (session_request (unsized_server (bytes_of "abcd"))
             (<["method" := AStr "HEAD"]> (aiohttp_args (w_self owned_world)))
             owned_world)) /\
   resp_headers (mkResponse ∅ []) !! "Content-Length" = None) /\
  download (unsized_server (bytes_of "abcd")) [] owned_world
  = download_single_threaded (unsized_server (bytes_of "abcd"))
      (snd (session_request (unsized_server (bytes_of "abcd"))
              (<["method" := AStr "HEAD"]> (aiohttp_args (w_self owned_world)))
              owned_world)).
Proof.
  assert (Hhead : session_request (unsized_server (bytes_of "abcd"))
     (<["method" := AStr "HEAD"]> (aiohttp_args (w_self owned_world))) owned_world
   = (Ok (mkResponse ∅ []),
      snd (session_request (unsized_server (bytes_of "abcd"))
             (<["method" := AStr "HEAD"]> (aiohttp_args (w_self owned_world)))
             owned_world))) by (vm_compute; reflexivity).
  assert (Hcl : resp_headers (mkResponse ∅ []) !! "Content-Length" = None)
    by reflexivity.
  split; [split; assumption|].
  apply (download_fallback_without_length _ [] owned_world _ _ Hhead Hcl).
Defined.

(* ------------------------------------------------------------------ *)
(** ** C9: a zero thread count *)

Module Probe.
Import Frame.

(** A request leaves the Downloader object and the file system alone. *)
Lemma session_request_self serve args :
  m_pres w_self (session_request serve args).
Proof. unfold session_request. pres_auto. Qed.

Lemma session_request_parent serve args :
  m_pres w_parent_exists (session_request serve args).
Proof. unfold session_request. pres_auto. Qed.

End Probe.

(** C9. When the HEAD probe succeeds with a Content-Length that parses and
    [threads = 0], [download] raises [ZeroDivisionError] (after pre-sizing
    the file, before any range worker); with [threads >= 1] the planning
    step never raises it. *)
Theorem download_zero_threads_raises serve sched w resp w1 cl len :
  session_request serve (<["method" := AStr "HEAD"]> (aiohttp_args (w_self w))) w
    = (Ok resp, w1) ->
  resp_headers resp !! "Content-Length" = Some cl ->
  py_int_of_string cl = Ok len ->
  w_parent_exists w = true ->
  threads (w_self w) = 0 ->
  fst (download serve sched w) = Err ZeroDivisionError /\
  (forall length threads, 1 <= threads ->
     plan_ranges length threads <> Err ZeroDivisionError).
Proof.
  intros Hhead Hcl Hint Hparent Hthreads. split.
  - pose proof (Probe.session_request_self serve
                  (<["method" := AStr "HEAD"]> (aiohttp_args (w_self w))) w) as Hs.
    pose proof (Probe.session_request_parent serve
                  (<["method" := AStr "HEAD"]> (aiohttp_args (w_self w))) w) as Hp.
    rewrite Hhead in Hs, Hp. simpl in Hs, Hp.
    unfold download, bind at 1, gets at 1. simpl.
    unfold bind at 1. rewrite Hhead, Hcl. simpl.
    unfold bind at 1, lift at 1. rewrite Hint. simpl.
    unfold bind at 1, open_wb at 1. rewrite Hp, Hparent. simpl.
    unfold bind at 1. simpl. unfold bind at 1, gets at 1. simpl.
    rewrite Hs, Hthreads. reflexivity.
  - intros length threads Ht E.
    destruct (plan_ranges_ok length threads) as [ranges Er]; [lia|].
    rewrite Er in E. discriminate.
Qed.

Lemma download_zero_threads_raises_witness :
  fst (download (range_server (bytes_of "abcd")) [] zero_threads_world)
    = Err ZeroDivisionError /\
  (forall length threads, 1 <= threads ->
     plan_ranges length threads <> Err ZeroDivisionError).
Proof.
  apply (download_zero_threads_raises (range_server (bytes_of "abcd")) []
           zero_threads_world
           (fst (match session_request (range_server (bytes_of "abcd"))
                   (<["method" := AStr "HEAD"]> (aiohttp_args (w_self zero_threads_world)))
                   zero_threads_world with
                 | (Ok r, _) => (r, tt) | _ => (mkResponse ∅ [], tt) end))
           (snd (session_request (range_server (bytes_of "abcd"))
                   (<["method" := AStr "HEAD"]> (aiohttp_args (w_self zero_threads_world)))
                   zero_threads_world))
           "4" 4);
    vm_compute; reflexivity.
Defined.

(* ------------------------------------------------------------------ *)
(** ** C2: closing the session *)

Module Session.
Import Frame.

(** [download] neither closes a session nor changes which session the
    Downloader holds or whether it owns it. *)
Lemma download_closed serve sched : m_pres w_closed (download serve sched).
Proof.
  apply Effects.download_pres; try (intros; reflexivity).
  apply Effects.set_range_closed.
Qed.

Lemma download_descriptor serve sched :
  m_pres (fun w => descriptor_view (w_self w)) (download serve sched).
Proof.
  apply Effects.download_pres; try (intros; reflexivity).
  apply Effects.set_range_descriptor.
Qed.

Lemma download_session serve sched w :
  session (w_self (snd (download serve sched w))) = session (w_self w) /\
  new_session (w_self (snd (download serve sched w))) = new_session (w_self w).
Proof.
  pose proof (download_descriptor serve sched w) as H.
  unfold descriptor_view in H. injection H. intros. split; assumption.
Qed.

(** An owned session is closed once when [download] succeeds. *)
Lemma asyncstart_owned_success serve sched w :
  new_session (w_self w) = true ->
  fst (download serve sched w) = Ok tt ->
  fst (asyncstart serve sched w) = Ok tt /\
  close_count (session (w_self w)) (snd (asyncstart serve sched w))
    = S (close_count (session (w_self w)) w).
Proof.
  intros Hnew Hok.
  destruct (download_session serve sched w) as [Hs Hn].
  pose proof (download_closed serve sched w) as Hc.
  unfold asyncstart, bind at 1.
  destruct (download serve sched w) as [r w'] eqn:E. simpl in *. subst r.
  unfold bind, gets. simpl. rewrite Hn, Hnew. simpl.
  split; [reflexivity|]. rewrite E. simpl. rewrite Hn, Hnew.
  unfold close, modify. simpl. rewrite Hs.
  unfold close_count. simpl. rewrite Hc, filter_app, length_app. simpl.
  rewrite filter_cons_True by reflexivity. simpl. lia.
Qed.

(** A borrowed session is never closed. *)
Lemma asyncstart_borrowed serve sched w :
  new_session (w_self w) = false ->
  w_closed (snd (asyncstart serve sched w)) = w_closed w.
Proof.
  intros Hnew.
  destruct (download_session serve sched w) as [_ Hn].
  pose proof (download_closed serve sched w) as Hc.
  unfold asyncstart, bind, gets.
  destruct (download serve sched w) as [[[]|e] w'] eqn:E; simpl in *; [|exact Hc].
  rewrite Hn, Hnew. exact Hc.
Qed.

(** When [download] raises, [asyncstart] raises the same exception and
    the session pool is left as [download] left it. *)
Lemma asyncstart_error serve sched w e :
  fst (download serve sched w) = Err e ->
  fst (asyncstart serve sched w) = Err e /\
  w_closed (snd (asyncstart serve sched w)) = w_closed w.
Proof.
  intros He. pose proof (download_closed serve sched w) as Hc.
  unfold asyncstart, bind.
  destruct (download serve sched w) as [r w'] eqn:E. simpl in *. subst r.
  split; [reflexivity|exact Hc].
Qed.

End Session.

(** C2 (at the failing input). A Downloader that created its own session,
    run through [start] against a server that cannot be reached: the HEAD
    probe raises [ClientError], which propagates out of [asyncstart], and the
    owned session is never closed. *)
Theorem start_skips_close_on_error :
  new_session (w_self owned_world) = true /\
  close_count (session (w_self owned_world)) owned_world = 0%nat /\
  fst (start unreachable_server [] owned_world) = Err ClientError /\
  close_count (session (w_self owned_world))
    (snd (start unreachable_server [] owned_world)) = 0%nat.
Proof. repeat split; vm_compute; reflexivity. Qed.

(* ------------------------------------------------------------------ *)
(** ** C8: what the operations change in the descriptor *)

(** C8, the counterexample. After [start] with the default arguments, the
    Downloader's [aiohttp_args] differs from the one [__init__] built: a
    ["headers"] mapping holding the last worker's Range has been added. *)
Lemma descriptor_mutated_counterexample :
  aiohttp_args (w_self owned_world) = {["method" := AStr "GET"]} /\
  aiohttp_args (w_self (snd (start (range_server (bytes_of "abcd")) [] owned_world)))
    = <["headers" := AHeaders {["Range" := "bytes=2-4"]}]> {["method" := AStr "GET"]} /\
  aiohttp_args (w_self (snd (start (range_server (bytes_of "abcd")) [] owned_world)))
    <> aiohttp_args (w_self owned_world).
Proof.
  split; [reflexivity|]. split; [vm_compute; reflexivity|].
  intros E. apply (f_equal (lookup "headers")) in E. vm_compute in E. discriminate.
Qed.

(** C8, amended. [download], [download_single_threaded], [fetch],
    [asyncstart] and [start] change no field of the Downloader except the
    ["Range"] entry of [aiohttp_args["headers"]], which they set (adding an
    empty ["headers"] mapping when there is none): [url], [file],
    [threads], [session], [new_session], [progress_bar] and every other
    entry of [aiohttp_args] keep their values, whatever the outcome. *)
Theorem descriptor_frame serve sched progress filerange :
  m_pres (fun w => descriptor_view (w_self w)) (download serve sched) /\
  m_pres (fun w => descriptor_view (w_self w)) (download_single_threaded serve) /\
  m_pres (fun w => descriptor_view (w_self w)) (run_proc (fetch serve progress filerange)) /\
  m_pres (fun w => descriptor_view (w_self w)) (asyncstart serve sched) /\
  m_pres (fun w => descriptor_view (w_self w)) (start serve sched).
Proof.
  assert (Ha : m_pres (fun w => descriptor_view (w_self w)) (asyncstart serve sched)).
  { unfold asyncstart. apply Frame.bind_pres; [apply Session.download_descriptor|].
    intros _. apply Frame.bind_pres; [apply Frame.gets_pres|intros self].
    destruct (new_session self); [|apply Frame.ret_pres].
    apply Frame.modify_pres. reflexivity. }
  split; [apply Session.download_descriptor|].
  split; [apply Effects.download_single_threaded_pres; try (intros; reflexivity);
          apply Effects.set_range_descriptor|].
  split; [apply Frame.run_proc_pres, Effects.fetch_pres; try (intros; reflexivity);
          apply Effects.set_range_descriptor|].
  split; [exact Ha|exact Ha].
Qed.

(* ------------------------------------------------------------------ *)
(** ** Concrete instances of the session and file lemmas *)

Lemma asyncstart_owned_success_witness :
  (new_session (w_self owned_world) = true /\
   fst (download (range_server (bytes_of "abcd")) [] owned_world) = Ok tt) /\
  fst (asyncstart (range_server (bytes_of "abcd")) [] owned_world) = Ok tt /\
  close_count (session (w_self owned_world))
    (snd (asyncstart (range_server (bytes_of "abcd")) [] owned_world))
    = S (close_count (session (w_self owned_world)) owned_world).
Proof.
  assert (Hn : new_session (w_self owned_world) = true) by reflexivity.
  assert (Hd : fst (download (range_server (bytes_of "abcd")) [] owned_world) = Ok tt)
    by (vm_compute; reflexivity).
  split; [split; assumption|].
  exact (Session.asyncstart_owned_success _ [] owned_world Hn Hd).
Defined.

Lemma asyncstart_borrowed_witness :
  new_session (w_self borrowed_world) = false /\
  w_closed (snd (asyncstart unreachable_server [] borrowed_world))
    = w_closed borrowed_world.
Proof.
  assert (Hn : new_session (w_self borrowed_world) = false) by reflexivity.
  split; [exact Hn|].
  exact (Session.asyncstart_borrowed unreachable_server [] borrowed_world Hn).
Defined.

Lemma fetch_overwrites_file_witness :
  w_disk (snd (run_proc (fetch (range_server (bytes_of "abcdefgh")) false
                           (PInt 2, PInt 3)) prefilled_world))
    = match concat (resp_chunks (mkResponse ∅ [bytes_of "cd"])) with
      | [] => []
      | _ => replicate (Z.to_nat 2) Byte.x00
               ++ concat (resp_chunks (mkResponse ∅ [bytes_of "cd"]))
      end.
Proof.
  apply (fetch_overwrites_file (range_server (bytes_of "abcdefgh")) false 2 3
           prefilled_world "GET" ∅ (mkResponse ∅ [bytes_of "cd"])).
  - reflexivity.
  - vm_compute. apply not_elem_of_nil.
  - reflexivity.
  - reflexivity.
  - lia.
  - vm_compute. reflexivity.
Defined.

(* ================================================================== *)
(** * Further properties of the downloader *)

Module Stream.
Import Frame.

(** The progress bar receives the length of every chunk written, when
    there is one. *)
Lemma write_chunks_progress progress pos cs w :
  w_progress (snd (run_proc (write_chunks progress pos cs) w))
  = w_progress w + (if progress then Z.of_nat (length (concat cs)) else 0).
Proof.
  revert pos w; induction cs as [|c cs IH]; intros pos w.
  - simpl. destruct progress; lia.
  - simpl write_chunks. rewrite Fetch.run_step.
    destruct (Fetch.write_chunk_run progress pos c w) as [E1 _]. rewrite E1.
    rewrite IH. simpl concat. rewrite length_app.
    destruct progress; simpl; lia.
Qed.



End Stream.

(** A [fetch] run to completion reports to the progress bar exactly the
    number of body bytes it received when [progress] is set, and nothing
    otherwise. *)
Theorem fetch_progress serve progress filerange w m h resp s :
  w_parent_exists w = true ->
  session (w_self w) ∉ w_closed w ->
  method_of (aiohttp_args (w_self w)) = Ok m ->
  headers_of (aiohttp_args (w_self w)) = Ok h ->
  filerange.1 = PInt s -> 0 <= s ->
  serve (mkRequest m (url (w_self w)) (<["Range" := range_header filerange]> h))
    = Ok resp ->
  w_progress (snd (run_proc (fetch serve progress filerange) w))
  = w_progress w
    + (if progress then Z.of_nat (length (concat (resp_chunks resp))) else 0).
Proof.
  intros Hp Hs Hm Hh Hfr Hpos Hserve.
  unfold fetch. rewrite Fetch.run_step.
  assert (Hopen : open_wb w = (Ok tt, set_disk [] w))
    by (unfold open_wb; rewrite Hp; reflexivity).
  rewrite Hopen. simpl. rewrite ?Fetch.run_step.
  rewrite (Request.fetch_request_run serve filerange (set_disk [] w) m h Hs Hm Hh).
  simpl. rewrite Hserve. simpl. rewrite ?Fetch.run_step.
  unfold seek_offset. rewrite Hfr.
  destruct (Z.ltb_spec s 0) as [Hlt|_]; [lia|]. simpl.
  rewrite Stream.write_chunks_progress. reflexivity.
Qed.

Lemma fetch_progress_witness :
  w_progress (snd (run_proc (fetch (range_server (bytes_of "abcdefgh")) true
                               (PInt 2, PInt 4)) owned_world))
  = w_progress owned_world + 3.
Proof.
  exact (fetch_progress (range_server (bytes_of "abcdefgh")) true (PInt 2, PInt 4)
           owned_world "GET" ∅ (mkResponse ∅ [bytes_of "cde"]) 2
           eq_refl ltac:(vm_compute; apply not_elem_of_nil) eq_refl eq_refl eq_refl
           ltac:(lia) ltac:(vm_compute; reflexivity)).
Defined.





(** When the resource is shorter than the number of threads (and there are
    at least two), [base] is 0: every range but the last is [(0, -1)], whose
    worker sends the header [Range: bytes=0--1], and the last range is
    [(0, total_length)], so it fetches the whole resource. *)
Theorem plan_ranges_short_resource (total_length threads : Z) :
  0 <= total_length < threads ->
  exists ranges,
    plan_ranges total_length threads = Ok ranges /\
    Z.of_nat (length ranges) = threads /\
    (forall i : nat, Z.of_nat i < threads - 1 -> ranges !! i = Some (0, -1)) /\
    last ranges = Some (0, total_length) /\
    range_header (PInt 0, PInt (-1)) = "bytes=0--1".
Proof.
  intros HL.
  destruct (plan_ranges_ok total_length threads ltac:(lia)) as [ranges Hp].
  exists ranges. split; [exact Hp|].
  destruct (Plan.plan_ranges_shape _ _ _ Hp) as (_ & Hlen & Hfirst & Hlast).
  assert (Hb : Z.quot total_length threads = 0) by (apply Z.quot_small; lia).
  rewrite Hb in Hfirst, Hlast.
  split; [rewrite Hlen; lia|].
  split.
  { intros i Hi. rewrite Hfirst by lia. f_equal. f_equal; lia. }
  split; [|reflexivity].
  rewrite last_lookup, Hlen. simpl. rewrite Hlast. f_equal. f_equal. lia.
Qed.

Lemma plan_ranges_short_resource_witness :
  exists ranges,
    plan_ranges 2 4 = Ok ranges /\
    Z.of_nat (length ranges) = 4 /\
    (forall i : nat, Z.of_nat i < 4 - 1 -> ranges !! i = Some (0, -1)) /\
    last ranges = Some (0, 2) /\
    range_header (PInt 0, PInt (-1)) = "bytes=0--1".
Proof. apply (plan_ranges_short_resource 2 4). lia. Defined.

(* ================================================================== *)
(** * The handlers *)

Module Handler.
Import Frame.

Lemma asyncstart_descriptor serve sched :
  m_pres (fun w => descriptor_view (w_self w)) (asyncstart serve sched).
Proof.
  unfold asyncstart. apply bind_pres; [apply Session.download_descriptor|].
  intros _. apply bind_pres; [apply gets_pres|intros self].
  destruct (new_session self); [|apply ret_pres].
  apply modify_pres. reflexivity.
Qed.

Lemma asyncstart_session serve sched w :
  session (w_self (snd (asyncstart serve sched w))) = session (w_self w) /\
  new_session (w_self (snd (asyncstart serve sched w))) = new_session (w_self w).
Proof.
  pose proof (asyncstart_descriptor serve sched w) as H.
  unfold descriptor_view in H. injection H. intros. split; assumption.
Qed.

(** [asyncstart] closes the owned session when, and only when, [download]
    returns normally. *)
Lemma asyncstart_closed serve sched w :
  w_closed (snd (asyncstart serve sched w))
  = w_closed w ++ match fst (asyncstart serve sched w) with
                  | Ok _ => if new_session (w_self w) then [session (w_self w)] else []
                  | Err _ => []
                  end.
Proof.
  destruct (Session.download_session serve sched w) as [Hs Hn].
  pose proof (Session.download_closed serve sched w) as Hc.
  cbv [asyncstart bind gets ret close modify].
  destruct (download serve sched w) as [[[]|e] w'] eqn:E; simpl in Hs, Hn, Hc.
  - rewrite Hn. destruct (new_session (w_self w)); simpl.
    + rewrite Hc, Hs. reflexivity.
    + rewrite Hc, app_nil_r. reflexivity.
  - simpl. rewrite Hc, app_nil_r. reflexivity.
Qed.

(** [download] with a closed session fails on its first request. *)
Lemma download_on_closed_session serve sched w :
  session (w_self w) ∈ w_closed w -> download serve sched w = (Err RuntimeError, w).
Proof.
  intros Hc. cbv [download bind gets].
  cbv [session_request bind gets raise].
  rewrite bool_decide_true by exact Hc. reflexivity.
Qed.




Lemma close_if_open_eq w :
  close_if_open w
  = (Ok tt, if new_session (w_self w) && negb (bool_decide (session (w_self w) ∈ w_closed w))
            then set_closed (w_closed w ++ [session (w_self w)]) w else w).
Proof.
  cbv [close_if_open session_closed bind gets ret close modify].
  destruct (new_session (w_self w)); [|reflexivity].
  destruct (bool_decide _); reflexivity.
Qed.

Lemma count_snoc (sid : nat) l :
  length (filter (fun s => s = sid) (l ++ [sid]))
  = S (length (filter (fun s => s = sid) l)).
Proof.
  rewrite filter_app, length_app. simpl.
  rewrite filter_cons_True by reflexivity. simpl. lia.
Qed.

Lemma count_zero (sid : nat) l :
  length (filter (fun s => s = sid) l) = 0%nat -> sid ∉ l.
Proof.
  intros H. apply (filter_nil_not_elem_of (fun s => s = sid)); [|reflexivity].
  destruct (filter _ l); [reflexivity|discriminate].
Qed.

(** [GeoTiffHandler._download] unfolded: the [try] body with its handlers,
    then the [finally] block, which never raises. *)
Lemma geotiff_download_eq serve is_file sched1 sched2 w :
  geotiff_download serve is_file sched1 sched2 w
  = let body :=
      if is_file then (Ok 1, w) else
      match asyncstart serve sched1 w with
      | (Ok _, w1) => (Ok 1, w1)
      | (Err ValueError, w1) =>
          match download serve sched2 w1 with
          | (Ok _, w2) => (Ok 1, w2)
          | (Err e, w2) => (Err e, w2)
          end
      | (Err _, w1) => (Ok (-1), w1)
      end in
    (fst body, snd (close_if_open (snd body))).
Proof.
  cbv [geotiff_download try_finally try_except bind ret].
  destruct is_file; [cbn [fst snd]; rewrite !close_if_open_eq; reflexivity|].
  destruct (asyncstart serve sched1 w) as [[a|[]] w1];
    try (cbn [fst snd]; rewrite !close_if_open_eq; reflexivity).
  destruct (download serve sched2 w1) as [[a|e] w2];
    cbn [fst snd]; rewrite !close_if_open_eq; reflexivity.
Qed.

(** The [try] body of [_download] keeps the session, and closes it at most
    once (through [asyncstart]). *)
Lemma geotiff_body_closed serve (is_file : bool) (sched1 sched2 : list nat) (w : world) :
  let body :=
      if is_file then (Ok 1, w) else
      match asyncstart serve sched1 w with
      | (Ok _, w1) => (Ok 1, w1)
      | (Err ValueError, w1) =>
          match download serve sched2 w1 with
          | (Ok _, w2) => (Ok 1, w2)
          | (Err e, w2) => (Err e, w2)
          end
      | (Err _, w1) => (Ok (-1), w1)
      end in
  session (w_self (snd body)) = session (w_self w) /\
  new_session (w_self (snd body)) = new_session (w_self w) /\
  (w_closed (snd body) = w_closed w \/
   (new_session (w_self w) = true /\
    w_closed (snd body) = w_closed w ++ [session (w_self w)])).
Proof.
  intros body. subst body.
  destruct is_file; [simpl; auto|].
  destruct (asyncstart_session serve sched1 w) as [Hs1 Hn1].
  pose proof (asyncstart_closed serve sched1 w) as Hc1.
  destruct (asyncstart serve sched1 w) as [[a|e] w1] eqn:E1;
    simpl in Hs1, Hn1, Hc1.
  - simpl. split; [exact Hs1|]. split; [exact Hn1|].
    destruct (new_session (w_self w)).
    + right. split; [reflexivity|exact Hc1].
    + left. rewrite Hc1, app_nil_r. reflexivity.
  - rewrite app_nil_r in Hc1.
    destruct e; simpl; try (split; [exact Hs1|split; [exact Hn1|left; exact Hc1]]).
    destruct (Session.download_session serve sched2 w1) as [Hs2 Hn2].
    pose proof (Session.download_closed serve sched2 w1) as Hc2.
    destruct (download serve sched2 w1) as [[b|e'] w2]; simpl in Hs2, Hn2, Hc2 |- *;
      (split; [congruence|split; [congruence|left; congruence]]).
Qed.

(** The [finally] block after a body that kept the session and closed it
    at most once: the owned session ends up closed exactly once. *)
Lemma close_if_open_after w w' :
  session (w_self w') = session (w_self w) ->
  new_session (w_self w') = new_session (w_self w) ->
  (new_session (w_self w) = true -> session (w_self w) ∉ w_closed w) ->
  (w_closed w' = w_closed w \/
   (new_session (w_self w) = true /\
    w_closed w' = w_closed w ++ [session (w_self w)])) ->
  w_closed (snd (close_if_open w'))
  = w_closed w ++ (if new_session (w_self w) then [session (w_self w)] else []).
Proof.
  intros Hs Hn Hopen Hc. rewrite close_if_open_eq. simpl. rewrite Hs, Hn.
  destruct Hc as [Hc|[Hns Hc]].
  - rewrite Hc. destruct (new_session (w_self w)) eqn:Ens; simpl.
    + rewrite bool_decide_false by (apply Hopen; reflexivity). simpl.
      rewrite ?Hc. reflexivity.
    + rewrite app_nil_r. congruence.
  - rewrite Hc, Hns. simpl.
    rewrite bool_decide_true by (apply elem_of_app; right; constructor).
    simpl. exact Hc.
Qed.

Lemma geotiff_download_closed serve is_file sched1 sched2 w :
  (new_session (w_self w) = true -> session (w_self w) ∉ w_closed w) ->
  w_closed (snd (geotiff_download serve is_file sched1 sched2 w))
  = w_closed w ++ (if new_session (w_self w) then [session (w_self w)] else []).
Proof.
  intros Hopen. rewrite geotiff_download_eq. cbv zeta. simpl snd at 1.
  destruct (geotiff_body_closed serve is_file sched1 sched2 w) as (Hs & Hn & Hc).
  apply close_if_open_after; assumption.
Qed.

(** [GeoJSONHandler.handle] unfolded. *)
Lemma geojson_handle_eq serve sched1 sched2 cv w :
  geojson_handle serve sched1 sched2 cv w
  = match asyncstart serve sched1 w with
    | (Ok _, w1) =>
        match cv w1 with
        | (Ok _, w2) => (Ok 1, w2)
        | (Err ValueError, w2) =>
            match download serve sched2 w2 with
            | (Ok _, w3) =>
                (Ok 1, if new_session (w_self w3)
                       then set_closed (w_closed w3 ++ [session (w_self w3)]) w3
                       else w3)
            | (Err e, w3) => (Err e, w3)
            end
        | (Err _, w2) => (Ok (-1), snd (close_if_open w2))
        end
    | (Err ValueError, w1) =>
        match download serve sched2 w1 with
        | (Ok _, w3) =>
            (Ok 1, if new_session (w_self w3)
                   then set_closed (w_closed w3 ++ [session (w_self w3)]) w3
                   else w3)
        | (Err e, w3) => (Err e, w3)
        end
    | (Err _, w1) => (Ok (-1), snd (close_if_open w1))
    end.
Proof.
  cbv [geojson_handle try_except bind ret gets close modify].
  destruct (asyncstart serve sched1 w) as [[a|[]] w1].
  - destruct (cv w1) as [[b|[]] w2];
      try (rewrite !close_if_open_eq; reflexivity); try reflexivity.
    destruct (download serve sched2 w2) as [[c|e] w3]; [|reflexivity].
    destruct (new_session (w_self w3)); reflexivity.
  - rewrite !close_if_open_eq; reflexivity.
  - destruct (download serve sched2 w1) as [[c|e] w3]; [|reflexivity].
    destruct (new_session (w_self w3)); reflexivity.
  - rewrite !close_if_open_eq; reflexivity.
  - rewrite !close_if_open_eq; reflexivity.
  - rewrite !close_if_open_eq; reflexivity.
  - rewrite !close_if_open_eq; reflexivity.
  - rewrite !close_if_open_eq; reflexivity.
Qed.

End Handler.

(** [GeoTiffHandler._download] closes a session the Downloader created,
    and that was still open, exactly once, whatever happens: when the file
    already exists, when [asyncstart] succeeds (its own close; the
    [finally] block sees the session closed), when it raises, and when the
    [ValueError] retry raises. *)
Theorem geotiff_download_closes_once serve is_file sched1 sched2 w :
  new_session (w_self w) = true ->
  close_count (session (w_self w)) w = 0%nat ->
  close_count (session (w_self w)) (snd (geotiff_download serve is_file sched1 sched2 w))
  = 1%nat.
Proof.
  intros Hn H0. pose proof (Handler.count_zero _ _ H0) as Hopen.
  unfold close_count in *.
  rewrite Handler.geotiff_download_closed by (intros; exact Hopen).
  rewrite Hn, Handler.count_snoc, H0. reflexivity.
Qed.

Lemma geotiff_download_closes_once_witness :
  (new_session (w_self geotiff_world) = true /\
   close_count (session (w_self geotiff_world)) geotiff_world = 0%nat) /\
  close_count (session (w_self geotiff_world))
    (snd (geotiff_download unreachable_server false [] [] geotiff_world)) = 1%nat.
Proof.
  assert (Hn : new_session (w_self geotiff_world) = true) by reflexivity.
  assert (H0 : close_count (session (w_self geotiff_world)) geotiff_world = 0%nat)
    by reflexivity.
  split; [split; assumption|].
  exact (geotiff_download_closes_once unreachable_server false [] [] geotiff_world Hn H0).
Defined.






(** Away from the [ValueError] raised by [asyncstart], [GeoJSONHandler.handle]
    closes a session the Downloader created, and that was still open,
    exactly once: [asyncstart] closes it when it succeeds, and the last
    [except] block closes it when [asyncstart] raises anything else; the
    conversion step is assumed to leave the session alone. *)
Theorem geojson_handle_closes_once serve sched1 sched2 convert w :
  new_session (w_self w) = true ->
  close_count (session (w_self w)) w = 0%nat ->
  (forall w', w_closed (snd (convert w')) = w_closed w' /\
              w_self (snd (convert w')) = w_self w') ->
  fst (asyncstart serve sched1 w) <> Err ValueError ->
  close_count (session (w_self w)) (snd (geojson_handle serve sched1 sched2 convert w))
  = 1%nat.
Proof.
  intros Hn H0 Hconv Hnv. pose proof (Handler.count_zero _ _ H0) as Hopen.
  unfold close_count in *.
  destruct (Handler.asyncstart_session serve sched1 w) as [Hs1 Hn1].
  pose proof (Handler.asyncstart_closed serve sched1 w) as Hc1.
  rewrite Handler.geojson_handle_eq.
  destruct (asyncstart serve sched1 w) as [[a|e] w1]; simpl in Hs1, Hn1, Hc1, Hnv.
  - rewrite Hn in Hc1.
    destruct (Hconv w1) as [Hc2 Hs2].
    destruct (convert w1) as [[b|e2] w2]; simpl in Hc2, Hs2.
    + simpl. rewrite Hc2, Hc1, Handler.count_snoc, H0. reflexivity.
    + assert (Hin : session (w_self w2) ∈ w_closed w2).
      { rewrite Hc2, Hc1, Hs2, Hs1. apply elem_of_app. right. constructor. }
      destruct e2; simpl;
        try (rewrite Handler.close_if_open_eq; simpl;
             rewrite (bool_decide_true _ Hin), andb_false_r; simpl;
             rewrite Hc2, Hc1, Handler.count_snoc, H0; reflexivity).
      rewrite (Handler.download_on_closed_session serve sched2 w2 Hin). simpl.
      rewrite Hc2, Hc1, Handler.count_snoc, H0. reflexivity.
  - rewrite app_nil_r in Hc1.
    destruct e; try (exfalso; apply Hnv; reflexivity); simpl;
      rewrite Handler.close_if_open_eq; simpl; rewrite Hn1, Hn, Hs1, Hc1;
      rewrite (bool_decide_false _ Hopen); simpl;
      rewrite Handler.count_snoc, H0; reflexivity.
Qed.

Lemma geojson_handle_closes_once_witness :
  close_count (session (w_self geojson_world))
    (snd (geojson_handle unreachable_server [] [] (ret tt) geojson_world)) = 1%nat.
Proof.
  apply (geojson_handle_closes_once unreachable_server [] [] (ret tt) geojson_world).
  - reflexivity.
  - reflexivity.
  - intros w'. split; reflexivity.
  - vm_compute. discriminate.
Defined.

(** If the conversion step raises [ValueError] after [asyncstart] has
    succeeded (and closed the session it created), the [except ValueError]
    branch of [GeoJSONHandler.handle] calls [download()] on the closed
    session: its first request raises [RuntimeError], which escapes
    [handle], and no request is sent. *)
Theorem geojson_handle_convert_value_error serve sched1 sched2 convert w w1 w2 :
  asyncstart serve sched1 w = (Ok tt, w1) ->
  new_session (w_self w) = true ->
  convert w1 = (Err ValueError, w2) ->
  w_self w2 = w_self w1 -> w_closed w2 = w_closed w1 ->
  geojson_handle serve sched1 sched2 convert w = (Err RuntimeError, w2).
Proof.
  intros Ha Hn Hc Hs2 Hc2.
  destruct (Handler.asyncstart_session serve sched1 w) as [Hs1 _].
  pose proof (Handler.asyncstart_closed serve sched1 w) as Hc1.
  rewrite Ha in Hs1, Hc1. simpl in Hs1, Hc1. rewrite Hn in Hc1.
  assert (Hin : session (w_self w2) ∈ w_closed w2).
  { rewrite Hc2, Hc1, Hs2, Hs1. apply elem_of_app. right. constructor. }
  rewrite Handler.geojson_handle_eq, Ha, Hc.
  rewrite (Handler.download_on_closed_session serve sched2 w2 Hin). reflexivity.
Qed.

Lemma geojson_handle_convert_value_error_witness :
  geojson_handle (range_server (bytes_of "abcd")) [] [] (raise ValueError) geojson_world
  = (Err RuntimeError,
     snd (asyncstart (range_server (bytes_of "abcd")) [] geojson_world)).
Proof.
  apply (geojson_handle_convert_value_error (range_server (bytes_of "abcd")) [] []
           (raise ValueError) geojson_world
           (snd (asyncstart (range_server (bytes_of "abcd")) [] geojson_world))).
  - vm_compute. reflexivity.
  - reflexivity.
  - reflexivity.
  - reflexivity.
  - reflexivity.
Defined.
